(** * Double pendulum simulator (AcceleratePhysicsLab/app.py)

    A shallow embedding of [DoublePendulumSimulator] and of the two Flask
    endpoints that drive it, together with the properties of the
    specification that can be stated on it.

    [demo_physics.py] repeats the class with the same [derivatives] and
    [calculate_energy]; what is proved of them here holds of both copies.

    Numbers.  The Python program computes with IEEE binary64 floats; the
    specification states its data model over the real numbers
    ("all positive real numbers").  The embedding follows the
    specification: a Python float is a real number of the standard library,
    [np.sin] and [np.cos] are [sin] and [cos], [x ** 2] is [x ^ 2].  What
    this idealisation leaves out (rounding of the values, NaN, infinities)
    is out of reach of every statement below.  Rounding is kept in the one
    place where it decides a discrete result: the number of samples that
    [np.arange] returns is the ceiling of a quotient computed in binary64,
    and that quotient is rounded to 53 significant bits ([round53]).

    Errors.  A Python exception is a value of [exn]; a computation that may
    raise is a [result].

    The solver.  [scipy.integrate.odeint] is not code of this repository.
    It is a parameter of the development; the properties of it that the
    driver relies on are collected in [OdeintContract], and an explicit
    one-step method ([euler_odeint]) shows that the contract can be met. *)

From Stdlib Require Import Reals Lra Lia ZArith.
From stdpp Require Import base decidable option list gmap strings.

Local Open Scope R_scope.

(** ** Python exceptions and the error monad *)

(** The exceptions that the modelled code can raise, and [InvalidParameter],
    the error class that only the specification names (section 7): no
    function below constructs it. *)
Inductive exn : Type :=
  | ZeroDivisionError
  | ValueError
  | TypeError
  | OverflowError
  | InvalidParameter.

Inductive result (A : Type) : Type :=
  | Ok (a : A)
  | Raise (e : exn).
Arguments Ok {A} a.
Arguments Raise {A} e.

#[global] Instance result_ret : MRet result := fun A a => Ok a.
#[global] Instance result_bind : MBind result := fun A B f m =>
  match m with
  | Ok a => f a
  | Raise e => Raise e
  end.
#[global] Instance result_fmap : FMap result := fun A B f m =>
  match m with
  | Ok a => Ok (f a)
  | Raise e => Raise e
  end.

(** ** Real numbers as Python floats *)

#[global] Instance R_eq_dec : EqDecision R := Req_dec_T.
#[global] Instance Rgt_decision (x y : R) : Decision (x > y) := Rgt_dec x y.
#[global] Instance Rlt_decision (x y : R) : Decision (x < y) := Rlt_dec x y.

(** [x / y] on two Python floats: a zero divisor raises. *)
Definition py_truediv (x y : R) : result R :=
  if decide (y = 0) then Raise ZeroDivisionError else Ok (x / y).

(** [np.sign]. *)
Definition np_sign (x : R) : R :=
  if decide (x < 0) then -1 else if decide (x > 0) then 1 else 0.

(** [math.radians] and [math.degrees]. *)
Definition radians (x : R) : R := x * (PI / 180).
Definition degrees (x : R) : R := x * (180 / PI).

(** Binary64 rounding, without the bounds on the exponent: [mag x] is the
    integer [e] with [2 ^ (e - 1) <= |x| < 2 ^ e], and [round53 x] is the
    multiple of [2 ^ (e - 53)] nearest to [x], the even one on a tie.  A
    real number that is not a binary64 number stands for the nearest one,
    as a decimal literal does in Python. *)
Definition mag (x : R) : Z := (Zfloor (ln (Rabs x) / ln 2) + 1)%Z.

Definition Znearest_even (y : R) : Z :=
  let f := Zfloor y in
  if decide (y - IZR f < 1 / 2) then f
  else if decide (y - IZR f > 1 / 2) then (f + 1)%Z
  else if Z.even f then f else (f + 1)%Z.

Definition round53 (x : R) : R :=
  if decide (x = 0) then 0
  else IZR (Znearest_even (x * powerRZ 2 (53 - mag x)))
       * powerRZ 2 (mag x - 53).

(** [np.arange(start, stop, step)] on Python floats: the length is the
    ceiling of [(stop - start) / step] as binary64 arithmetic computes it
    (a rounded difference, then a rounded quotient), never negative, and
    the division raises on a zero step; element [i] is
    [start + i * step]. *)
Definition arange_len (start stop step : R) : nat :=
  Z.to_nat
    (Zceil (round53 (round53 (round53 stop - round53 start) / round53 step))).

Definition arange (start stop step : R) : result (list R) :=
  if decide (step = 0) then Raise ZeroDivisionError
  else Ok (map (fun i : nat => start + INR i * step)
               (seq 0 (arange_len start stop step))).

(** Elementwise operations of numpy on one-dimensional arrays. *)
Definition vmap (f : R -> R) (a : list R) : list R := map f a.
Definition vzip (f : R -> R -> R) (a b : list R) : list R := zip_with f a b.
Definition vneg : list R -> list R := vmap Ropp.

(** [solution[:, k]]. *)
Definition column (k : nat) (solution : list (list R)) : list R :=
  map (fun row => nth k row 0) solution.

(** ** The simulator *)

(** The instance attributes set by [__init__]. *)
Record DoublePendulumSimulator : Type := {
  m1 : R;
  m2 : R;
  L1 : R;
  L2 : R;
  g : R
}.

(** [__init__(self, m1=1.0, m2=1.0, L1=1.0, L2=1.0, g=9.81)]: an argument
    that the caller leaves out is [None] here. *)
Definition init (m1 m2 L1 L2 g : option R) : DoublePendulumSimulator :=
  {| m1 := default 1.0 m1;
     m2 := default 1.0 m2;
     L1 := default 1.0 L1;
     L2 := default 1.0 L2;
     g := default 9.81 g |}.

(** [derivatives(self, state, t)].  Unpacking a state that does not have
    four components raises [ValueError]; [self.L2 / self.L1] divides two
    Python floats and raises on [L1 = 0]; the other two divisions have a
    numpy float on the left.  The conditional expression
    [den if abs(den) > epsilon else epsilon * np.sign(den) if den != 0 else epsilon]
    is read by Python as
    [den if ... else ((epsilon * np.sign(den)) if den != 0 else epsilon)]. *)
Definition derivatives (self : DoublePendulumSimulator)
    (state : list R) (t : R) : result (list R) :=
  match state with
  | [theta1; omega1; theta2; omega2] =>
      let delta := theta2 - theta1 in
      let den1 :=
        (self.(m1) + self.(m2)) * self.(L1)
        - self.(m2) * self.(L1) * cos delta ^ 2 in
      ratio ← py_truediv self.(L2) self.(L1);
      let den2 := ratio * den1 in
      let epsilon := 1e-10 in
      let den1 :=
        if decide (Rabs den1 > epsilon) then den1
        else if decide (den1 <> 0) then epsilon * np_sign den1
        else epsilon in
      let den2 :=
        if decide (Rabs den2 > epsilon) then den2
        else if decide (den2 <> 0) then epsilon * np_sign den2
        else epsilon in
      let num1a :=
        - self.(m2) * self.(L1) * omega1 ^ 2 * sin delta * cos delta in
      let num1b := - self.(m2) * self.(g) * sin theta2 * cos delta in
      let num1c := - self.(m2) * self.(L2) * omega2 ^ 2 * sin delta in
      let num1d := - (self.(m1) + self.(m2)) * self.(g) * sin theta1 in
      let alpha1 := (num1a + num1b + num1c + num1d) / den1 in
      let num2a :=
        self.(m2) * self.(L2) * omega2 ^ 2 * sin delta * cos delta in
      let num2b :=
        (self.(m1) + self.(m2)) * self.(g) * sin theta1 * cos delta in
      let num2c :=
        (self.(m1) + self.(m2)) * self.(L1) * omega1 ^ 2 * sin delta in
      let num2d := - (self.(m1) + self.(m2)) * self.(g) * sin theta2 in
      let alpha2 := (num2a + num2b + num2c + num2d) / den2 in
      Ok [omega1; alpha1; omega2; alpha2]
  | _ => Raise ValueError
  end.

(** The pieces of [derivatives], named for the statements below: the
    threshold, the guard that the conditional expression applies to a
    denominator, the first denominator before the guard, and the two
    numerators. *)
Definition epsilon : R := 1e-10.

Definition clamp_den (den : R) : R :=
  if decide (Rabs den > epsilon) then den
  else if decide (den <> 0) then epsilon * np_sign den
  else epsilon.

Definition raw_den1 (self : DoublePendulumSimulator) (delta : R) : R :=
  (self.(m1) + self.(m2)) * self.(L1) - self.(m2) * self.(L1) * cos delta ^ 2.

Definition numerator1 (self : DoublePendulumSimulator)
    (theta1 omega1 theta2 omega2 : R) : R :=
  let delta := theta2 - theta1 in
  - self.(m2) * self.(L1) * omega1 ^ 2 * sin delta * cos delta
  + - self.(m2) * self.(g) * sin theta2 * cos delta
  + - self.(m2) * self.(L2) * omega2 ^ 2 * sin delta
  + - (self.(m1) + self.(m2)) * self.(g) * sin theta1.

Definition numerator2 (self : DoublePendulumSimulator)
    (theta1 omega1 theta2 omega2 : R) : R :=
  let delta := theta2 - theta1 in
  self.(m2) * self.(L2) * omega2 ^ 2 * sin delta * cos delta
  + (self.(m1) + self.(m2)) * self.(g) * sin theta1 * cos delta
  + (self.(m1) + self.(m2)) * self.(L1) * omega1 ^ 2 * sin delta
  + - (self.(m1) + self.(m2)) * self.(g) * sin theta2.

(** ** The integration driver *)

(** The dictionary that [simulate] returns, one field per key. *)
Record Trajectory : Type := {
  tr_time : list R;
  tr_theta1 : list R;
  tr_theta2 : list R;
  tr_x1 : list R;
  tr_y1 : list R;
  tr_x2 : list R;
  tr_y2 : list R;
  tr_energy : list R;
  tr_dt : R;
  tr_L1 : R;
  tr_L2 : R
}.

(** The right-hand side that a solver integrates, and the solver itself:
    [odeint(func, y0, t)] returns one row per sample time. *)
Definition rhs : Type := list R -> R -> result (list R).
Definition solver : Type := rhs -> list R -> list R -> result (list (list R)).

(** [calculate_energy(self, solution)], with numpy's elementwise
    operations written out.  A row of [solution] holds the four components
    of a state; [column] reads a component that is not there as 0 (numpy
    would raise). *)
Definition calculate_energy (self : DoublePendulumSimulator)
    (solution : list (list R)) : list R :=
  let theta1 := column 0 solution in
  let omega1 := column 1 solution in
  let theta2 := column 2 solution in
  let omega2 := column 3 solution in
  let sq := vmap (fun x => x ^ 2) in
  let v1_sq := sq (vmap (Rmult self.(L1)) omega1) in
  let v2_sq :=
    vzip Rplus
      (vzip Rplus (sq (vmap (Rmult self.(L1)) omega1))
                  (sq (vmap (Rmult self.(L2)) omega2)))
      (vzip Rmult
         (vzip Rmult (vmap (Rmult (2 * self.(L1) * self.(L2))) omega1) omega2)
         (vmap cos (vzip Rminus theta1 theta2))) in
  let T := vzip Rplus (vmap (Rmult (0.5 * self.(m1))) v1_sq)
                      (vmap (Rmult (0.5 * self.(m2))) v2_sq) in
  let y1 := vmap (Rmult (- self.(L1))) (vmap cos theta1) in
  let y2 := vzip Rminus (vmap (Rmult (- self.(L1))) (vmap cos theta1))
                        (vmap (Rmult self.(L2)) (vmap cos theta2)) in
  let V := vzip Rplus (vmap (Rmult (self.(m1) * self.(g))) y1)
                      (vmap (Rmult (self.(m2) * self.(g))) y2) in
  vzip Rplus T V.

Section Driver.

Variable odeint : solver.

(** [simulate(self, initial_state, duration, dt)]; every caller in the
    repository passes [dt]. *)
Definition simulate (self : DoublePendulumSimulator)
    (initial_state : list R) (duration dt : R) : result Trajectory :=
  t ← arange 0 duration dt;
  solution ← odeint (derivatives self) initial_state t;
  let theta1 := column 0 solution in
  let theta2 := column 2 solution in
  let x1 := vmap (Rmult self.(L1)) (vmap sin theta1) in
  let y1 := vmap (Rmult (- self.(L1))) (vmap cos theta1) in
  let x2 := vzip Rplus x1 (vmap (Rmult self.(L2)) (vmap sin theta2)) in
  let y2 := vzip Rminus y1 (vmap (Rmult self.(L2)) (vmap cos theta2)) in
  let energy := calculate_energy self solution in
  Ok {| tr_time := t;
        tr_theta1 := theta1;
        tr_theta2 := theta2;
        tr_x1 := x1;
        tr_y1 := y1;
        tr_x2 := x2;
        tr_y2 := y2;
        tr_energy := energy;
        tr_dt := dt;
        tr_L1 := self.(L1);
        tr_L2 := self.(L2) |}.

End Driver.

(** The trajectory that [simulate] assembles from the time grid and the
    rows of the solver, named for the statements below. *)
Definition trajectory_of (self : DoublePendulumSimulator)
    (t : list R) (solution : list (list R)) (dt : R) : Trajectory :=
  let theta1 := column 0 solution in
  let theta2 := column 2 solution in
  let x1 := vmap (Rmult self.(L1)) (vmap sin theta1) in
  let y1 := vmap (Rmult (- self.(L1))) (vmap cos theta1) in
  {| tr_time := t;
     tr_theta1 := theta1;
     tr_theta2 := theta2;
     tr_x1 := x1;
     tr_y1 := y1;
     tr_x2 := vzip Rplus x1 (vmap (Rmult self.(L2)) (vmap sin theta2));
     tr_y2 := vzip Rminus y1 (vmap (Rmult self.(L2)) (vmap cos theta2));
     tr_energy := calculate_energy self solution;
     tr_dt := dt;
     tr_L1 := self.(L1);
     tr_L2 := self.(L2) |}.

(** The sample times of a run. *)
Definition time_grid (duration dt : R) : list R :=
  map (fun i : nat => 0 + INR i * dt) (seq 0 (arange_len 0 duration dt)).

(** ** What the driver relies on from the solver *)

(** A right-hand side that returns a vector of [n] components on every
    state of [n] components. *)
Definition well_shaped (f : rhs) (n : nat) : Prop :=
  forall (y : list R) (t : R),
    length y = n -> exists dy, f y t = Ok dy /\ length dy = n.

(** Sample times that never turn back, as [odeint] requires. *)
Definition monotone (ts : list R) : Prop :=
  (forall i j : nat, (i <= j < length ts)%nat -> nth i ts 0 <= nth j ts 0) \/
  (forall i j : nat, (i <= j < length ts)%nat -> nth j ts 0 <= nth i ts 0).

(** The contract assumed of [scipy.integrate.odeint], in exact arithmetic,
    on a well-shaped right-hand side and a non-empty monotone grid:
    it returns; it returns one row per sample time; it leaves a state at
    which the right-hand side vanishes where it is; and it commutes with
    the mirror [y |-> -y] when the right-hand side does.  The last two are
    properties of the exact flow and of the linear multistep formulas that
    approximate it. *)
Record OdeintContract (odeint : solver) : Prop := {
  odeint_returns :
    forall (f : rhs) (y0 ts : list R),
      well_shaped f (length y0) -> ts <> [] -> monotone ts ->
      exists solution, odeint f y0 ts = Ok solution;
  odeint_shape :
    forall (f : rhs) (y0 ts : list R) (solution : list (list R)),
      odeint f y0 ts = Ok solution -> length solution = length ts;
  odeint_equilibrium :
    forall (f : rhs) (y0 ts : list R),
      well_shaped f (length y0) -> ts <> [] -> monotone ts ->
      (forall t, f y0 t = Ok (repeat 0 (length y0))) ->
      odeint f y0 ts = Ok (repeat y0 (length ts));
  odeint_mirror :
    forall (f : rhs) (y0 ts : list R),
      well_shaped f (length y0) -> ts <> [] -> monotone ts ->
      (forall y t, f (vneg y) t = vneg <$> f y t) ->
      odeint f (vneg y0) ts = map vneg <$> odeint f y0 ts
}.


(** The explicit Euler method on the sample grid: the simplest solver that
    meets the contract. *)
Fixpoint euler_steps (f : rhs) (y : list R) (t : R) (ts : list R)
    : result (list (list R)) :=
  match ts with
  | [] => Ok []
  | t' :: ts' =>
      dy ← f y t;
      let y' := vzip Rplus y (vmap (Rmult (t' - t)) dy) in
      rest ← euler_steps f y' t' ts';
      Ok (y' :: rest)
  end.

Definition euler_odeint : solver := fun f y0 ts =>
  match ts with
  | [] => Ok []
  | t0 :: ts' => rest ← euler_steps f y0 t0 ts'; Ok (y0 :: rest)
  end.

(** ** The Flask endpoints *)

(** A value of the JSON payload, as far as [float(...)] tells values
    apart: a number written as an integer is a Python [int], any other
    number a Python [float]; arrays and objects are rejected whatever they
    hold. *)
Inductive json : Type :=
  | JNull
  | JBool (b : bool)
  | JInt (n : Z)
  | JNumber (x : R)
  | JString (s : string)
  | JArray
  | JObject.

(** What an endpoint returns: [jsonify({'success': True, ...})], or the
    error message with status 400 from the [except Exception] handler. *)
Inductive response (A : Type) : Type :=
  | Success (payload : A)
  | Failure400 (error : exn).
Arguments Success {A} payload.
Arguments Failure400 {A} error.

Definition handle {A} (body : result A) : response A :=
  match body with
  | Ok payload => Success payload
  | Raise e => Failure400 e
  end.

(** One entry of the list that [/api/compare] returns. *)
Record Simulation : Type := {
  sim_id : nat;
  sim_delta : R;
  sim_data : Trajectory
}.

(** [enumerate]. *)
Definition enumerate {A} (l : list A) : list (nat * A) :=
  zip (seq 0 (length l)) l.

Module Route.
Section Endpoints.

Variable odeint : solver.

(** Python's reading of a string as a float, [None] where [float]
    raises [ValueError]. *)
Variable float_of_string : string -> option R.

(** [float(v)].  An [int] whose nearest binary64 number would lie beyond
    the largest one, that is one of magnitude [2^1024 - 2^970] or more,
    raises [OverflowError]. *)
Definition float (v : json) : result R :=
  match v with
  | JInt n =>
      if decide (Z.abs n < 2 ^ 1024 - 2 ^ 970)%Z then Ok (round53 (IZR n))
      else Raise OverflowError
  | JNumber x => Ok x
  | JBool b => Ok (if b then 1 else 0)
  | JString s =>
      match float_of_string s with
      | Some x => Ok x
      | None => Raise ValueError
      end
  | JNull | JArray | JObject => Raise TypeError
  end.

(** [float(data.get(key, dflt))] for a numeric default. *)
Definition get_float (data : gmap string json) (key : string) (dflt : R)
    : result R :=
  float (default (JNumber dflt) (data !! key)).

(** The body of the [try] block of [simulate], the handler of
    [/api/simulate]. *)
Definition simulate_body (data : gmap string json) : result Trajectory :=
  theta1 ← radians <$> get_float data "theta1" 90;
  theta2 ← radians <$> get_float data "theta2" 90;
  omega1 ← get_float data "omega1" 0;
  omega2 ← get_float data "omega2" 0;
  m1 ← get_float data "m1" 1.0;
  m2 ← get_float data "m2" 1.0;
  L1 ← get_float data "L1" 1.0;
  L2 ← get_float data "L2" 1.0;
  duration ← get_float data "duration" 10;
  dt ← get_float data "dt" 0.01;
  let simulator := init (Some m1) (Some m2) (Some L1) (Some L2) None in
  let initial_state := [theta1; omega1; theta2; omega2] in
  simulate odeint simulator initial_state duration dt.

(** The body of the [try] block of [compare_simulations], the handler of
    [/api/compare]. *)
Definition compare_simulations_body (data : gmap string json)
    : result (list Simulation) :=
  base_theta1 ← radians <$> get_float data "theta1" 90;
  base_theta2 ← radians <$> get_float data "theta2" 90;
  perturbation ← radians <$> get_float data "perturbation" 0.01;
  m1 ← get_float data "m1" 1.0;
  m2 ← get_float data "m2" 1.0;
  L1 ← get_float data "L1" 1.0;
  L2 ← get_float data "L2" 1.0;
  duration ← get_float data "duration" 10;
  dt ← get_float data "dt" 0.01;
  let simulator := init (Some m1) (Some m2) (Some L1) (Some L2) None in
  mapM (fun '(i, delta) =>
          let initial_state := [base_theta1 + delta; 0; base_theta2; 0] in
          results ← simulate odeint simulator initial_state duration dt;
          Ok {| sim_id := i; sim_delta := degrees delta; sim_data := results |})
       (enumerate [0; perturbation; - perturbation]).

(** The two handlers. *)
Definition simulate (data : gmap string json) : response Trajectory :=
  handle (simulate_body data).

Definition compare_simulations (data : gmap string json)
    : response (list Simulation) :=
  handle (compare_simulations_body data).

End Endpoints.
End Route.

(** ** The formulas of the specification *)

(** Section 4.1 and section 4.2 of the specification, word for word; the
    theorems below compare them with what the code computes. *)
Module Spec.

Definition den1 (m1 m2 L1 delta : R) : R :=
  (m1 + m2) * L1 - m2 * L1 * cos delta ^ 2.

Definition den2 (m1 m2 L1 L2 delta : R) : R :=
  (L2 / L1) * den1 m1 m2 L1 delta.

Definition alpha1 (m1 m2 L1 L2 g theta1 omega1 theta2 omega2 : R) : R :=
  let delta := theta2 - theta1 in
  (- m2 * L1 * omega1 ^ 2 * sin delta * cos delta
   - m2 * g * sin theta2 * cos delta
   - m2 * L2 * omega2 ^ 2 * sin delta
   - (m1 + m2) * g * sin theta1) / den1 m1 m2 L1 delta.

Definition alpha2 (m1 m2 L1 L2 g theta1 omega1 theta2 omega2 : R) : R :=
  let delta := theta2 - theta1 in
  (m2 * L2 * omega2 ^ 2 * sin delta * cos delta
   + (m1 + m2) * g * sin theta1 * cos delta
   + (m1 + m2) * L1 * omega1 ^ 2 * sin delta
   - (m1 + m2) * g * sin theta2) / den2 m1 m2 L1 L2 delta.

Definition kinetic (m1 m2 L1 L2 theta1 omega1 theta2 omega2 : R) : R :=
  0.5 * m1 * (L1 * omega1) ^ 2
  + 0.5 * m2 * ((L1 * omega1) ^ 2 + (L2 * omega2) ^ 2
                + 2 * L1 * L2 * omega1 * omega2 * cos (theta1 - theta2)).

Definition potential (m1 m2 L1 L2 g theta1 theta2 : R) : R :=
  m1 * g * (- L1 * cos theta1)
  + m2 * g * (- L1 * cos theta1 - L2 * cos theta2).

Definition energy (m1 m2 L1 L2 g theta1 omega1 theta2 omega2 : R) : R :=
  kinetic m1 m2 L1 L2 theta1 omega1 theta2 omega2
  + potential m1 m2 L1 L2 g theta1 theta2.

(** The length of the time sequence as section 3 and section 8 give it. *)
Definition samples (duration dt : R) : nat :=
  Z.to_nat (Zfloor (duration / dt)).


End Spec.

(** ** Inputs of the examples *)

(** [DoublePendulumSimulator()], as the demonstrations build it. *)
Definition default_simulator : DoublePendulumSimulator :=
  init None None None None None.

(** A simulator whose second rod has a negative length. *)
Definition negative_rod_simulator : DoublePendulumSimulator :=
  init None None None (Some (- (1))) None.

(** The initial state that the endpoints use when the request is empty:
    both rods horizontal, at rest. *)
Definition horizontal_state : list R := [radians 90; 0; radians 90; 0].

(** The ten fields that the handler of [/api/simulate] reads, in the order
    in which it reads them, each with its default. *)
Definition simulate_fields : list (string * R) :=
  [("theta1", 90); ("theta2", 90); ("omega1", 0); ("omega2", 0);
   ("m1", 1.0); ("m2", 1.0); ("L1", 1.0); ("L2", 1.0);
   ("duration", 10); ("dt", 0.01)]%string.

(** The energy, as [calculate_energy] computes it, of the state reached
    from [y] by a step of length [h] along [dy]. *)
Definition energy_along (self : DoublePendulumSimulator)
    (y dy : list R) (h : R) : R :=
  nth 0 (calculate_energy self [vzip Rplus y (vmap (Rmult h) dy)]) 0.

(** * Properties *)

(** ** The error monad *)

Lemma bind_Ok_inv {A B} (f : A -> result B) (m : result A) (b : B) :
  m ≫= f = Ok b -> exists a, m = Ok a /\ f a = Ok b.
Proof. destruct m as [a|e]; [eauto | discriminate]. Qed.

(** ** The guard on the denominators *)

Lemma epsilon_pos : 0 < epsilon.
Proof. unfold epsilon; lra. Qed.

Lemma np_sign_neg (x : R) : x < 0 -> np_sign x = -1.
Proof. intros Hx; unfold np_sign; destruct (decide (x < 0)); [reflexivity | lra]. Qed.

Lemma np_sign_pos (x : R) : 0 < x -> np_sign x = 1.
Proof.
  intros Hx; unfold np_sign.
  destruct (decide (x < 0)); [lra|].
  destruct (decide (x > 0)); [reflexivity | lra].
Qed.

Lemma np_sign_opp (x : R) : np_sign (- x) = - np_sign x.
Proof.
  unfold np_sign.
  destruct (decide (- x < 0)), (decide (x < 0)), (decide (- x > 0)),
    (decide (x > 0)); lra.
Qed.

Lemma clamp_den_large (den : R) : Rabs den > epsilon -> clamp_den den = den.
Proof. intros H; unfold clamp_den; destruct (decide (Rabs den > epsilon)); tauto. Qed.

Lemma clamp_den_small (den : R) :
  den <> 0 -> Rabs den <= epsilon -> clamp_den den = epsilon * np_sign den.
Proof.
  intros Hne Hle; unfold clamp_den.
  destruct (decide (Rabs den > epsilon)); [lra|].
  destruct (decide (den <> 0)); tauto.
Qed.

Lemma clamp_den_zero : clamp_den 0 = epsilon.
Proof.
  unfold clamp_den.
  destruct (decide (Rabs 0 > epsilon)) as [H|_].
  - rewrite Rabs_R0 in H. pose proof epsilon_pos. lra.
  - destruct (decide (0 <> 0)); [lra | reflexivity].
Qed.

Lemma clamp_den_bound (den : R) : epsilon <= Rabs (clamp_den den).
Proof.
  pose proof epsilon_pos as He.
  unfold clamp_den.
  destruct (decide (Rabs den > epsilon)) as [Hbig|Hsmall]; [lra|].
  destruct (decide (den <> 0)) as [Hne|_].
  - destruct (Rtotal_order den 0) as [Hn|[Hz|Hp]]; [|tauto|].
    + rewrite np_sign_neg by assumption.
      replace (epsilon * -1) with (- epsilon) by ring.
      rewrite Rabs_Ropp, Rabs_pos_eq; lra.
    + rewrite np_sign_pos by assumption.
      rewrite Rmult_1_r, Rabs_pos_eq; lra.
  - rewrite Rabs_pos_eq; lra.
Qed.

Lemma clamp_den_nonzero (den : R) : clamp_den den <> 0.
Proof.
  pose proof (clamp_den_bound den) as Hb. pose proof epsilon_pos as He.
  intros Hz. rewrite Hz, Rabs_R0 in Hb. lra.
Qed.


(** ** The derivative function *)

Lemma py_truediv_ok (x y : R) : y <> 0 -> py_truediv x y = Ok (x / y).
Proof. intros Hy; unfold py_truediv; destruct (decide (y = 0)); tauto. Qed.

Lemma py_truediv_zero (x : R) : py_truediv x 0 = Raise ZeroDivisionError.
Proof. unfold py_truediv; destruct (decide (0 = 0)); tauto. Qed.

Lemma derivatives_ok (self : DoublePendulumSimulator)
    (theta1 omega1 theta2 omega2 t : R) :
  self.(L1) <> 0 ->
  derivatives self [theta1; omega1; theta2; omega2] t =
    Ok [omega1;
        numerator1 self theta1 omega1 theta2 omega2
          / clamp_den (raw_den1 self (theta2 - theta1));
        omega2;
        numerator2 self theta1 omega1 theta2 omega2
          / clamp_den (self.(L2) / self.(L1) * raw_den1 self (theta2 - theta1))].
Proof.
  intros HL. unfold derivatives. rewrite py_truediv_ok by assumption.
  reflexivity.
Qed.

Lemma derivatives_L1_zero (self : DoublePendulumSimulator)
    (theta1 omega1 theta2 omega2 t : R) :
  self.(L1) = 0 ->
  derivatives self [theta1; omega1; theta2; omega2] t = Raise ZeroDivisionError.
Proof.
  intros HL. unfold derivatives. rewrite HL, py_truediv_zero. reflexivity.
Qed.

Lemma derivatives_well_shaped (self : DoublePendulumSimulator) :
  self.(L1) <> 0 -> well_shaped (derivatives self) 4.
Proof.
  intros HL y t Hlen.
  destruct y as [|a [|b [|c [|d [|? ?]]]]]; try discriminate.
  eexists; split; [apply derivatives_ok; assumption | reflexivity].
Qed.

Lemma raw_den1_spec (self : DoublePendulumSimulator) (delta : R) :
  raw_den1 self delta = Spec.den1 self.(m1) self.(m2) self.(L1) delta.
Proof. reflexivity. Qed.

Lemma raw_den1_mirror (self : DoublePendulumSimulator) (theta1 theta2 : R) :
  raw_den1 self (- theta2 - - theta1) = raw_den1 self (theta2 - theta1).
Proof.
  unfold raw_den1.
  replace (- theta2 - - theta1) with (- (theta2 - theta1)) by ring.
  rewrite cos_neg. reflexivity.
Qed.

Lemma numerator1_mirror (self : DoublePendulumSimulator)
    (theta1 omega1 theta2 omega2 : R) :
  numerator1 self (- theta1) (- omega1) (- theta2) (- omega2) =
  - numerator1 self theta1 omega1 theta2 omega2.
Proof.
  unfold numerator1; cbv zeta.
  replace (- theta2 - - theta1) with (- (theta2 - theta1)) by ring.
  rewrite cos_neg, !sin_neg. ring.
Qed.

Lemma numerator2_mirror (self : DoublePendulumSimulator)
    (theta1 omega1 theta2 omega2 : R) :
  numerator2 self (- theta1) (- omega1) (- theta2) (- omega2) =
  - numerator2 self theta1 omega1 theta2 omega2.
Proof.
  unfold numerator2; cbv zeta.
  replace (- theta2 - - theta1) with (- (theta2 - theta1)) by ring.
  rewrite cos_neg, !sin_neg. ring.
Qed.

(** Negating the state negates the derivative, whatever the parameters;
    a state that is rejected is rejected in both positions. *)
Lemma derivatives_mirror (self : DoublePendulumSimulator) (y : list R) (t : R) :
  derivatives self (vneg y) t = vneg <$> derivatives self y t.
Proof.
  destruct y as [|theta1 [|omega1 [|theta2 [|omega2 [|? ?]]]]];
    try reflexivity.
  destruct (decide (self.(L1) = 0)) as [HL|HL].
  - change (vneg [theta1; omega1; theta2; omega2])
      with [- theta1; - omega1; - theta2; - omega2].
    rewrite !derivatives_L1_zero by assumption. reflexivity.
  - change (vneg [theta1; omega1; theta2; omega2])
      with [- theta1; - omega1; - theta2; - omega2].
    rewrite !derivatives_ok by assumption.
    rewrite raw_den1_mirror, numerator1_mirror, numerator2_mirror.
    rewrite !Rdiv_opp_l. reflexivity.
Qed.

Lemma numerator1_rest (self : DoublePendulumSimulator) :
  numerator1 self 0 0 0 0 = 0.
Proof.
  unfold numerator1; cbv zeta. rewrite Rminus_diag, sin_0. ring.
Qed.

Lemma numerator2_rest (self : DoublePendulumSimulator) :
  numerator2 self 0 0 0 0 = 0.
Proof.
  unfold numerator2; cbv zeta. rewrite Rminus_diag, sin_0. ring.
Qed.

(** The pendulum hanging at rest does not move. *)
Lemma derivatives_rest (self : DoublePendulumSimulator) (t : R) :
  self.(L1) <> 0 -> derivatives self [0; 0; 0; 0] t = Ok [0; 0; 0; 0].
Proof.
  intros HL. rewrite derivatives_ok by assumption.
  rewrite numerator1_rest, numerator2_rest.
  unfold Rdiv. rewrite !Rmult_0_l. reflexivity.
Qed.

(** C1.  On a state of four components and positive parameters, with both
    denominators of absolute value above the threshold 1e-10, the
    derivative function returns [omega1, alpha1, omega2, alpha2] with
    alpha1 and alpha2 given by the equations of section 4.1. *)
Theorem derivatives_equations (self : DoublePendulumSimulator)
    (theta1 omega1 theta2 omega2 t : R) :
  0 < self.(m1) -> 0 < self.(m2) -> 0 < self.(L1) -> 0 < self.(L2) ->
  0 < self.(g) ->
  Rabs (Spec.den1 self.(m1) self.(m2) self.(L1) (theta2 - theta1)) > 1e-10 ->
  Rabs (Spec.den2 self.(m1) self.(m2) self.(L1) self.(L2) (theta2 - theta1))
    > 1e-10 ->
  derivatives self [theta1; omega1; theta2; omega2] t =
    Ok [omega1;
        Spec.alpha1 self.(m1) self.(m2) self.(L1) self.(L2) self.(g)
          theta1 omega1 theta2 omega2;
        omega2;
        Spec.alpha2 self.(m1) self.(m2) self.(L1) self.(L2) self.(g)
          theta1 omega1 theta2 omega2].
Proof.
  intros Hm1 Hm2 HL1 HL2 Hg Hd1 Hd2.
  rewrite derivatives_ok by lra.
  rewrite raw_den1_spec.
  rewrite (clamp_den_large (Spec.den1 _ _ _ _)) by exact Hd1.
  rewrite (clamp_den_large (_ * Spec.den1 _ _ _ _)) by exact Hd2.
  unfold Spec.alpha1, Spec.alpha2, Spec.den2, numerator1, numerator2;
    cbv zeta.
  replace (- self.(m2) * self.(L1) * omega1 ^ 2 * sin (theta2 - theta1)
             * cos (theta2 - theta1)
           + - self.(m2) * self.(g) * sin theta2 * cos (theta2 - theta1)
           + - self.(m2) * self.(L2) * omega2 ^ 2 * sin (theta2 - theta1)
           + - (self.(m1) + self.(m2)) * self.(g) * sin theta1)
    with (- self.(m2) * self.(L1) * omega1 ^ 2 * sin (theta2 - theta1)
            * cos (theta2 - theta1)
          - self.(m2) * self.(g) * sin theta2 * cos (theta2 - theta1)
          - self.(m2) * self.(L2) * omega2 ^ 2 * sin (theta2 - theta1)
          - (self.(m1) + self.(m2)) * self.(g) * sin theta1) by ring.
  replace (self.(m2) * self.(L2) * omega2 ^ 2 * sin (theta2 - theta1)
             * cos (theta2 - theta1)
           + (self.(m1) + self.(m2)) * self.(g) * sin theta1
             * cos (theta2 - theta1)
           + (self.(m1) + self.(m2)) * self.(L1) * omega1 ^ 2
             * sin (theta2 - theta1)
           + - (self.(m1) + self.(m2)) * self.(g) * sin theta2)
    with (self.(m2) * self.(L2) * omega2 ^ 2 * sin (theta2 - theta1)
            * cos (theta2 - theta1)
          + (self.(m1) + self.(m2)) * self.(g) * sin theta1
            * cos (theta2 - theta1)
          + (self.(m1) + self.(m2)) * self.(L1) * omega1 ^ 2
            * sin (theta2 - theta1)
          - (self.(m1) + self.(m2)) * self.(g) * sin theta2) by ring.
  reflexivity.
Qed.

(** C2.  The guard leaves a denominator above the threshold unchanged,
    replaces a non-zero one at or below it by 1e-10 times its sign and a
    zero one by +1e-10, so that the result is at least 1e-10 in absolute
    value; the derivative function divides by the guarded denominators
    only, hence never by zero (when [L1 = 0] it raises on [L2 / L1] before
    either division is reached). *)
Theorem derivatives_denominators_clamped :
  (forall den : R,
     (Rabs den > 1e-10 -> clamp_den den = den) /\
     (den <> 0 -> Rabs den <= 1e-10 -> clamp_den den = 1e-10 * np_sign den) /\
     (den = 0 -> clamp_den den = 1e-10) /\
     1e-10 <= Rabs (clamp_den den)) /\
  (forall (self : DoublePendulumSimulator) (theta1 omega1 theta2 omega2 t : R),
     (self.(L1) = 0 /\
      derivatives self [theta1; omega1; theta2; omega2] t
        = Raise ZeroDivisionError) \/
     (exists den1 den2 : R,
        den1 = clamp_den (raw_den1 self (theta2 - theta1)) /\
        den2 = clamp_den
                 (self.(L2) / self.(L1) * raw_den1 self (theta2 - theta1)) /\
        1e-10 <= Rabs den1 /\ 1e-10 <= Rabs den2 /\
        den1 <> 0 /\ den2 <> 0 /\
        derivatives self [theta1; omega1; theta2; omega2] t =
          Ok [omega1;
              numerator1 self theta1 omega1 theta2 omega2 / den1;
              omega2;
              numerator2 self theta1 omega1 theta2 omega2 / den2])).
Proof.
  split.
  - intros den. repeat split.
    + apply clamp_den_large.
    + apply clamp_den_small.
    + intros ->. apply clamp_den_zero.
    + apply clamp_den_bound.
  - intros self theta1 omega1 theta2 omega2 t.
    destruct (decide (self.(L1) = 0)) as [HL|HL].
    + left. split; [assumption | now apply derivatives_L1_zero].
    + right. do 2 eexists. repeat split; try reflexivity.
      * apply clamp_den_bound.
      * apply clamp_den_bound.
      * apply clamp_den_nonzero.
      * apply clamp_den_nonzero.
      * now apply derivatives_ok.
Qed.

(** ** Arrays *)

Lemma vzip_length (f : R -> R -> R) (a b : list R) :
  length a = length b -> length (vzip f a b) = length a.
Proof.
  revert b; induction a as [|x a IH]; intros [|y b] Hlen;
    try discriminate; [reflexivity|].
  cbn. f_equal. apply IH. now injection Hlen.
Qed.

Lemma vmap_length (f : R -> R) (a : list R) : length (vmap f a) = length a.
Proof. apply length_map. Qed.

Lemma vzip_map {A} (f : R -> R -> R) (p q : A -> R) (l : list A) :
  vzip f (map p l) (map q l) = map (fun x => f (p x) (q x)) l.
Proof. induction l as [|x l IH]; [reflexivity|]. cbn. f_equal. exact IH. Qed.

Lemma vmap_map {A} (f : R -> R) (p : A -> R) (l : list A) :
  vmap f (map p l) = map (fun x => f (p x)) l.
Proof. unfold vmap. apply map_map. Qed.

Lemma vneg_length (y : list R) : length (vneg y) = length y.
Proof. apply vmap_length. Qed.


(** An Euler step from a state along the zero vector stays there. *)
Lemma step_along_zero (h : R) (y : list R) :
  vzip Rplus y (vmap (Rmult h) (repeat 0 (length y))) = y.
Proof.
  induction y as [|x y IH]; [reflexivity|].
  cbn. rewrite Rmult_0_r, Rplus_0_r. f_equal. exact IH.
Qed.

(** An Euler step commutes with the mirror. *)
Lemma step_mirror (h : R) (y dy : list R) :
  vzip Rplus (vneg y) (vmap (Rmult h) (vneg dy)) =
  vneg (vzip Rplus y (vmap (Rmult h) dy)).
Proof.
  revert dy; induction y as [|x y IH]; intros [|d dy]; try reflexivity.
  cbn. f_equal; [ring | apply IH].
Qed.

Lemma column_length (k : nat) (solution : list (list R)) :
  length (column k solution) = length solution.
Proof. apply length_map. Qed.

Lemma column_repeat (k n : nat) (row : list R) :
  column k (repeat row n) = repeat (nth k row 0) n.
Proof. induction n as [|n IH]; [reflexivity|]. cbn. f_equal. exact IH. Qed.

Lemma column_mirror (k : nat) (solution : list (list R)) :
  column k (map vneg solution) = vneg (column k solution).
Proof.
  induction solution as [|row solution IH]; [reflexivity|].
  cbn. f_equal; [|exact IH].
  destruct (Nat.lt_ge_cases k (length row)) as [Hlt|Hge].
  - unfold vneg, vmap. rewrite (nth_indep _ 0 (- 0)) by (now rewrite length_map).
    apply map_nth.
  - rewrite !nth_overflow; [ring | assumption | now rewrite vneg_length].
Qed.

(** ** The time grid *)

Lemma arange_ok (start stop step : R) :
  step <> 0 ->
  arange start stop step =
    Ok (map (fun i : nat => start + INR i * step)
            (seq 0 (arange_len start stop step))).
Proof. intros Hs; unfold arange; destruct (decide (step = 0)); tauto. Qed.

Lemma arange_zero_step (start stop : R) :
  arange start stop 0 = Raise ZeroDivisionError.
Proof. unfold arange; destruct (decide (0 = 0)); tauto. Qed.

Lemma grid_length (start step : R) (n : nat) :
  length (map (fun i : nat => start + INR i * step) (seq 0 n)) = n.
Proof. now rewrite length_map, length_seq. Qed.

Lemma grid_nth (start step : R) (n i : nat) :
  (i < n)%nat ->
  nth i (map (fun i : nat => start + INR i * step) (seq 0 n)) 0
    = start + INR i * step.
Proof.
  intros Hi.
  set (F := fun i : nat => start + INR i * step).
  rewrite (nth_indep _ 0 (F 0%nat)) by (subst F; now rewrite grid_length).
  rewrite (map_nth F), seq_nth by assumption. reflexivity.
Qed.

Lemma grid_monotone (start step : R) (n : nat) :
  0 < step ->
  monotone (map (fun i : nat => start + INR i * step) (seq 0 n)).
Proof.
  intros Hs. left. intros i j [Hij Hj]. rewrite grid_length in Hj.
  rewrite !grid_nth by lia.
  apply le_INR in Hij. nra.
Qed.

Lemma ln2_pos : 0 < ln 2.
Proof. pose proof ln_lt_2. lra. Qed.

Lemma powerRZ2_le (a b : Z) : (a <= b)%Z -> powerRZ 2 a <= powerRZ 2 b.
Proof.
  intros Hab. replace b with (a + Z.of_nat (Z.to_nat (b - a)))%Z by lia.
  rewrite powerRZ_add by lra. rewrite <- pow_powerRZ.
  pose proof (powerRZ_lt 2 a ltac:(lra)).
  pose proof (pow_R1_Rle 2 (Z.to_nat (b - a)) ltac:(lra)). nra.
Qed.

Lemma powerRZ2_lt_inv (a b : Z) : powerRZ 2 a < powerRZ 2 b -> (a < b)%Z.
Proof.
  intros H. destruct (Z.lt_ge_cases a b) as [Hlt|Hge]; [assumption|].
  apply powerRZ2_le in Hge. lra.
Qed.

(** The lower half of the characterisation of [mag]. *)
Lemma mag_lower (x : R) : x <> 0 -> powerRZ 2 (mag x - 1) <= Rabs x.
Proof.
  intros Hx. unfold mag.
  replace (Zfloor (ln (Rabs x) / ln 2) + 1 - 1)%Z
    with (Zfloor (ln (Rabs x) / ln 2)) by lia.
  assert (Hpos : 0 < Rabs x) by now apply Rabs_pos_lt.
  pose proof ln2_pos as H2.
  destruct (Zfloor_bound (ln (Rabs x) / ln 2)) as [Hlo _].
  rewrite powerRZ_Rpower by lra. unfold Rpower.
  rewrite <- (exp_ln (Rabs x)) at 2 by assumption.
  assert (Hle : IZR (Zfloor (ln (Rabs x) / ln 2)) * ln 2 <= ln (Rabs x)).
  { apply (Rmult_le_compat_r (ln 2)) in Hlo; [|lra].
    replace (ln (Rabs x) / ln 2 * ln 2) with (ln (Rabs x)) in Hlo
      by (field; lra).
    exact Hlo. }
  destruct Hle as [Hlt|Heq].
  - left. now apply exp_increasing.
  - right. now rewrite Heq.
Qed.

Lemma Znearest_even_IZR (z : Z) : Znearest_even (IZR z) = z.
Proof.
  unfold Znearest_even. rewrite ZfloorZ.
  destruct (decide (IZR z - IZR z < 1 / 2)); [reflexivity | lra].
Qed.

Lemma Znearest_even_pos (y : R) : 1 <= y -> (1 <= Znearest_even y)%Z.
Proof.
  intros Hy. pose proof (Zfloor_lub 1 y Hy) as Hf.
  unfold Znearest_even.
  repeat destruct (decide _); try destruct (Z.even _); lia.
Qed.

(** Rounding keeps a positive number positive. *)
Lemma round53_pos (x : R) : 0 < x -> 0 < round53 x.
Proof.
  intros Hx. unfold round53. destruct (decide (x = 0)) as [|Hnz]; [lra|].
  pose proof (mag_lower x Hnz) as Hm. rewrite Rabs_pos_eq in Hm by lra.
  apply Rmult_lt_0_compat; [|apply powerRZ_lt; lra].
  apply IZR_lt. apply (Z.lt_le_trans 0 1); [lia|]. apply Znearest_even_pos.
  pose proof (powerRZ_lt 2 (53 - mag x) ltac:(lra)) as Hp.
  assert (H52 : powerRZ 2 (mag x - 1) * powerRZ 2 (53 - mag x)
                = powerRZ 2 52).
  { rewrite <- powerRZ_add by lra. f_equal. lia. }
  assert (1 <= powerRZ 2 52).
  { change 1 with (powerRZ 2 0). apply powerRZ2_le. lia. }
  nra.
Qed.

(** Rounding leaves a number of at most 53 significant bits as it is. *)
Lemma round53_exact (m k : Z) :
  (Z.abs m < 2 ^ 53)%Z ->
  round53 (IZR m * powerRZ 2 k) = IZR m * powerRZ 2 k.
Proof.
  intros Hm.
  pose proof (powerRZ_lt 2 k ltac:(lra)) as Hk.
  unfold round53.
  destruct (decide (IZR m * powerRZ 2 k = 0)) as [Hz|Hnz]; [now rewrite Hz|].
  pose proof (mag_lower _ Hnz) as Hlow.
  set (e := mag (IZR m * powerRZ 2 k)) in *.
  assert (Habs : Rabs (IZR m * powerRZ 2 k) = IZR (Z.abs m) * powerRZ 2 k).
  { rewrite Rabs_mult, <- abs_IZR, (Rabs_pos_eq (powerRZ 2 k)); lra. }
  assert (H53 : IZR (2 ^ 53) = powerRZ 2 53).
  { change 53%Z with (Z.of_nat 53). now rewrite <- pow_powerRZ, pow_IZR. }
  assert (Hd : (0 <= 53 - e + k)%Z).
  { assert (Hlt : powerRZ 2 (e - 1) < powerRZ 2 (53 + k)).
    { rewrite (powerRZ_add 2 53 k) by lra.
      apply IZR_lt in Hm. rewrite H53 in Hm. rewrite Habs in Hlow. nra. }
    apply powerRZ2_lt_inv in Hlt. lia. }
  assert (Hpow : IZR (2 ^ (53 - e + k)) = powerRZ 2 (53 - e + k)).
  { rewrite <- (Z2Nat.id (53 - e + k)) at 2 by assumption.
    now rewrite <- pow_powerRZ, pow_IZR, Z2Nat.id by assumption. }
  assert (Hy : IZR m * powerRZ 2 k * powerRZ 2 (53 - e)
               = IZR (m * 2 ^ (53 - e + k))).
  { rewrite mult_IZR, Hpow, (powerRZ_add 2 (53 - e) k) by lra. ring. }
  rewrite Hy, Znearest_even_IZR, <- Hy.
  rewrite Rmult_assoc, <- powerRZ_add by lra.
  replace (53 - e + (e - 53))%Z with 0%Z by lia.
  cbn. ring.
Qed.

Lemma round53_0 : round53 0 = 0.
Proof. unfold round53. destruct (decide (0 = 0)); [reflexivity | lra]. Qed.

Lemma round53_1 : round53 1 = 1.
Proof.
  replace 1 with (IZR 1 * powerRZ 2 0) by (cbn; lra).
  apply round53_exact. lia.
Qed.

Lemma round53_3_2 : round53 1.5 = 1.5.
Proof.
  assert (H : 1.5 = IZR 3 * powerRZ 2 (-1)).
  { unfold powerRZ. change (Pos.to_nat 1) with 1%nat. lra. }
  rewrite H. apply round53_exact. lia.
Qed.

(** The number of samples when the difference and the quotient are
    computed without rounding error. *)
Lemma arange_len_exact (stop step : R) :
  round53 stop = stop -> round53 step = step ->
  round53 (stop / step) = stop / step ->
  arange_len 0 stop step = Z.to_nat (Zceil (stop / step)).
Proof.
  intros Hstop Hstep Hq. unfold arange_len.
  rewrite round53_0, Hstop, Rminus_0_r, Hstop, Hstep, Hq. reflexivity.
Qed.

Lemma arange_len_pos (stop step : R) :
  0 < stop -> 0 < step -> (0 < arange_len 0 stop step)%nat.
Proof.
  intros HD Hs. unfold arange_len. rewrite round53_0, Rminus_0_r.
  pose proof (round53_pos _ (round53_pos stop HD)) as Hn.
  pose proof (round53_pos step Hs) as Hd.
  pose proof (round53_pos _ (Rdiv_lt_0_compat _ _ Hn Hd)) as Hq.
  destruct (Zceil_bound
              (round53 (round53 (round53 stop) / round53 step))) as [_ Hup].
  assert (Hz : (0 < Zceil (round53 (round53 (round53 stop) / round53 step)))%Z)
    by (apply lt_IZR; lra).
  lia.
Qed.

Lemma grid_nonempty (start step : R) (n : nat) :
  (0 < n)%nat -> map (fun i : nat => start + INR i * step) (seq 0 n) <> [].
Proof. intros Hn H. apply (f_equal length) in H. rewrite grid_length in H. cbn in H. lia. Qed.

(** ** The explicit Euler method meets the contract *)

Lemma euler_steps_shape (f : rhs) (ts : list R) :
  forall (y : list R) (t : R) (solution : list (list R)),
    euler_steps f y t ts = Ok solution -> length solution = length ts.
Proof.
  induction ts as [|t' ts IH]; intros y t solution H; cbn in H.
  - injection H as <-. reflexivity.
  - apply bind_Ok_inv in H as (dy & _ & H).
    apply bind_Ok_inv in H as (rest & Hrest & H).
    injection H as <-. cbn. f_equal. exact (IH _ _ _ Hrest).
Qed.

Lemma euler_steps_returns (f : rhs) (n : nat) (ts : list R) :
  well_shaped f n ->
  forall (y : list R) (t : R),
    length y = n -> exists solution, euler_steps f y t ts = Ok solution.
Proof.
  intros Hf. induction ts as [|t' ts IH]; intros y t Hy; cbn.
  - eauto.
  - destruct (Hf y t Hy) as (dy & -> & Hdy). cbn.
    destruct (IH (vzip Rplus y (vmap (Rmult (t' - t)) dy)) t') as (rest & ->).
    + rewrite vzip_length; [assumption | now rewrite vmap_length, Hdy].
    + cbn. eauto.
Qed.

Lemma euler_steps_equilibrium (f : rhs) (y0 : list R) (ts : list R) :
  (forall t, f y0 t = Ok (repeat 0 (length y0))) ->
  forall t : R, euler_steps f y0 t ts = Ok (repeat y0 (length ts)).
Proof.
  intros Hf. induction ts as [|t' ts IH]; intros t; cbn; [reflexivity|].
  rewrite Hf. cbn. rewrite step_along_zero, IH. reflexivity.
Qed.

Lemma euler_steps_mirror (f : rhs) (ts : list R) :
  (forall y t, f (vneg y) t = vneg <$> f y t) ->
  forall (y : list R) (t : R),
    euler_steps f (vneg y) t ts = map vneg <$> euler_steps f y t ts.
Proof.
  intros Hf. induction ts as [|t' ts IH]; intros y t; cbn; [reflexivity|].
  rewrite Hf. destruct (f y t) as [dy|e]; [|reflexivity]. cbn.
  rewrite step_mirror, IH.
  destruct (euler_steps f _ t' ts); reflexivity.
Qed.

Lemma euler_contract : OdeintContract euler_odeint.
Proof.
  split.
  - intros f y0 [|t0 ts] Hf Hne _; [congruence|]. cbn.
    destruct (euler_steps_returns f _ ts Hf y0 t0 eq_refl) as (rest & ->).
    cbn. eauto.
  - intros f y0 [|t0 ts] solution H; cbn in H.
    + injection H as <-. reflexivity.
    + apply bind_Ok_inv in H as (rest & Hrest & H). injection H as <-.
      cbn. f_equal. exact (euler_steps_shape _ _ _ _ _ Hrest).
  - intros f y0 [|t0 ts] _ Hne _ Hf; [congruence|]. cbn.
    rewrite euler_steps_equilibrium by assumption. reflexivity.
  - intros f y0 [|t0 ts] _ Hne _ Hf; [congruence|]. cbn.
    rewrite euler_steps_mirror by assumption.
    destruct (euler_steps f y0 t0 ts); reflexivity.
Qed.

(** ** The energy diagnostic *)

Lemma calculate_energy_rows (self : DoublePendulumSimulator)
    (solution : list (list R)) :
  calculate_energy self solution =
    map (fun row =>
           Spec.energy self.(m1) self.(m2) self.(L1) self.(L2) self.(g)
             (nth 0 row 0) (nth 1 row 0) (nth 2 row 0) (nth 3 row 0))
        solution.
Proof.
  unfold calculate_energy, column; cbv zeta.
  repeat (rewrite vmap_map || rewrite vzip_map).
  apply map_ext. intros row.
  unfold Spec.energy, Spec.kinetic, Spec.potential. ring.
Qed.

Lemma calculate_energy_length (self : DoublePendulumSimulator)
    (solution : list (list R)) :
  length (calculate_energy self solution) = length solution.
Proof. rewrite calculate_energy_rows. apply length_map. Qed.

(** C5.  The energy reported for a sampled state is T + V, with T and V as
    section 4.2 gives them. *)
Theorem calculate_energy_sample (self : DoublePendulumSimulator)
    (solution : list (list R)) (i : nat) (theta1 omega1 theta2 omega2 : R) :
  solution !! i = Some [theta1; omega1; theta2; omega2] ->
  calculate_energy self solution !! i =
    Some (Spec.kinetic self.(m1) self.(m2) self.(L1) self.(L2)
            theta1 omega1 theta2 omega2
          + Spec.potential self.(m1) self.(m2) self.(L1) self.(L2) self.(g)
              theta1 theta2).
Proof.
  intros Hrow. rewrite calculate_energy_rows, list_lookup_fmap, Hrow.
  reflexivity.
Qed.

(** ** Mirrored arrays *)

Lemma vzip_plus_mirror (a b : list R) :
  vzip Rplus (vneg a) (vneg b) = vneg (vzip Rplus a b).
Proof.
  revert b; induction a as [|x a IH]; intros [|y b]; try reflexivity.
  cbn. f_equal; [ring | apply IH].
Qed.

Lemma scaled_sin_mirror (c : R) (a : list R) :
  vmap (Rmult c) (vmap sin (vneg a)) = vneg (vmap (Rmult c) (vmap sin a)).
Proof.
  induction a as [|x a IH]; [reflexivity|].
  cbn. rewrite sin_neg. f_equal; [ring | exact IH].
Qed.

Lemma scaled_cos_mirror (c : R) (a : list R) :
  vmap (Rmult c) (vmap cos (vneg a)) = vmap (Rmult c) (vmap cos a).
Proof.
  induction a as [|x a IH]; [reflexivity|].
  cbn. rewrite cos_neg. f_equal. exact IH.
Qed.

Lemma mirror_initial_state (theta : R) :
  [- theta; 0; - theta; 0] = vneg [theta; 0; theta; 0].
Proof. cbn. rewrite Ropp_0. reflexivity. Qed.

(** ** The driver *)

Lemma time_grid_length (duration dt : R) :
  length (time_grid duration dt) = arange_len 0 duration dt.
Proof. unfold time_grid. now rewrite grid_length. Qed.

Lemma time_grid_nth (duration dt : R) (i : nat) :
  (i < length (time_grid duration dt))%nat ->
  nth i (time_grid duration dt) 0 = INR i * dt.
Proof.
  intros Hi. unfold time_grid in *. rewrite grid_length in Hi.
  rewrite grid_nth by assumption. ring.
Qed.

Lemma time_grid_increasing (duration dt : R) (i j : nat) :
  0 < dt -> (i < j < length (time_grid duration dt))%nat ->
  nth i (time_grid duration dt) 0 < nth j (time_grid duration dt) 0.
Proof.
  intros Hdt [Hij Hj]. rewrite !time_grid_nth by lia.
  apply lt_INR in Hij. nra.
Qed.

Lemma time_grid_nonempty (duration dt : R) :
  0 < duration -> 0 < dt -> time_grid duration dt <> [].
Proof.
  intros HD Hdt. apply grid_nonempty. now apply arange_len_pos.
Qed.

Lemma time_grid_monotone (duration dt : R) :
  0 < dt -> monotone (time_grid duration dt).
Proof. intros Hdt. now apply grid_monotone. Qed.

Section DriverFacts.

Variable odeint : solver.

(** [simulate] is the grid, then the solver, then the assembly. *)
Lemma simulate_steps (self : DoublePendulumSimulator) (y0 : list R)
    (duration dt : R) :
  dt <> 0 ->
  simulate odeint self y0 duration dt =
    (solution ← odeint (derivatives self) y0 (time_grid duration dt);
     Ok (trajectory_of self (time_grid duration dt) solution dt)).
Proof.
  intros Hdt. unfold simulate. rewrite arange_ok by assumption.
  reflexivity.
Qed.

(** A zero step is refused while the grid is built, before the solver
    is called. *)
Lemma simulate_zero_step (self : DoublePendulumSimulator) (y0 : list R)
    (duration : R) :
  simulate odeint self y0 duration 0 = Raise ZeroDivisionError.
Proof. unfold simulate. rewrite arange_zero_step. reflexivity. Qed.

Hypothesis contract : OdeintContract odeint.

(** With a rod of non-zero length, a positive duration and a positive
    step, the run returns, with one row per sample time. *)
Lemma simulate_returns (self : DoublePendulumSimulator) (y0 : list R)
    (duration dt : R) :
  self.(L1) <> 0 -> length y0 = 4%nat -> 0 < duration -> 0 < dt ->
  exists solution,
    odeint (derivatives self) y0 (time_grid duration dt) = Ok solution /\
    length solution = length (time_grid duration dt) /\
    simulate odeint self y0 duration dt =
      Ok (trajectory_of self (time_grid duration dt) solution dt).
Proof.
  intros HL Hy0 HD Hdt.
  destruct (odeint_returns odeint contract (derivatives self) y0
              (time_grid duration dt)) as (solution & Hsol).
  - rewrite Hy0. now apply derivatives_well_shaped.
  - now apply time_grid_nonempty.
  - now apply time_grid_monotone.
  - exists solution. split; [assumption | split].
    + exact (odeint_shape odeint contract _ _ _ _ Hsol).
    + rewrite simulate_steps by lra. rewrite Hsol. reflexivity.
Qed.

(** From rest, every row of the solver is the state at rest. *)
Lemma simulate_rest (self : DoublePendulumSimulator) (duration dt : R) :
  self.(L1) <> 0 -> 0 < duration -> 0 < dt ->
  simulate odeint self [0; 0; 0; 0] duration dt =
    Ok (trajectory_of self (time_grid duration dt)
          (repeat [0; 0; 0; 0] (length (time_grid duration dt))) dt).
Proof.
  intros HL HD Hdt. rewrite simulate_steps by lra.
  rewrite (odeint_equilibrium odeint contract).
  - reflexivity.
  - now apply derivatives_well_shaped.
  - now apply time_grid_nonempty.
  - now apply time_grid_monotone.
  - intros t. now apply derivatives_rest.
Qed.

(** The rows of the solver from the mirrored state are the mirrored rows. *)
Lemma odeint_derivatives_mirror (self : DoublePendulumSimulator)
    (y0 : list R) (duration dt : R) :
  self.(L1) <> 0 -> length y0 = 4%nat -> 0 < duration -> 0 < dt ->
  odeint (derivatives self) (vneg y0) (time_grid duration dt) =
    map vneg <$> odeint (derivatives self) y0 (time_grid duration dt).
Proof.
  intros HL Hy0 HD Hdt. apply (odeint_mirror odeint contract).
  - rewrite Hy0. now apply derivatives_well_shaped.
  - now apply time_grid_nonempty.
  - now apply time_grid_monotone.
  - apply derivatives_mirror.
Qed.

End DriverFacts.

(** ** Samples of the time sequence *)

Lemma lookup_nth_lt (l : list R) (i : nat) :
  (i < length l)%nat -> l !! i = Some (nth i l 0).
Proof.
  intros Hi. destruct (nth_lookup_or_length l i 0) as [H|H]; [exact H | lia].
Qed.

Lemma time_grid_lookup (duration dt : R) (i : nat) :
  (i < arange_len 0 duration dt)%nat ->
  time_grid duration dt !! i = Some (INR i * dt).
Proof.
  intros Hi. rewrite <- time_grid_length in Hi.
  rewrite lookup_nth_lt by assumption.
  now rewrite time_grid_nth.
Qed.

Lemma time_grid_lookup_inv (duration dt : R) (i : nat) (t : R) :
  time_grid duration dt !! i = Some t -> t = INR i * dt.
Proof.
  intros H. pose proof (lookup_lt_Some _ _ _ H) as Hi.
  rewrite lookup_nth_lt, time_grid_nth in H by assumption.
  congruence.
Qed.

Lemma samples_positive (duration dt : R) :
  0 < duration -> 0 < dt -> (0 < arange_len 0 duration dt)%nat.
Proof.
  intros HD Hdt. rewrite <- time_grid_length.
  pose proof (time_grid_nonempty duration dt HD Hdt) as Hne.
  destruct (time_grid duration dt); [congruence | cbn; lia].
Qed.

Lemma trajectory_lengths (self : DoublePendulumSimulator)
    (t : list R) (solution : list (list R)) (dt : R) :
  length solution = length t ->
  let traj := trajectory_of self t solution dt in
  length (tr_theta1 traj) = length t /\
  length (tr_theta2 traj) = length t /\
  length (tr_x1 traj) = length t /\
  length (tr_y1 traj) = length t /\
  length (tr_x2 traj) = length t /\
  length (tr_y2 traj) = length t /\
  length (tr_energy traj) = length t.
Proof.
  intros Hlen. cbn.
  repeat split;
    rewrite ?calculate_energy_length, ?vzip_length, ?vmap_length,
      ?column_length;
    rewrite ?vmap_length, ?column_length; congruence.
Qed.

(** ** Claims about the driver *)

(** C4, amended.  For a positive duration and a positive step the run
    returns a trajectory whose time sequence has length ceil(q), where q
    is the quotient duration / dt as binary64 arithmetic computes it; the
    sequence starts at 0, has [time[i] = i * dt] and is strictly
    increasing; the other seven sequences have that length too.  When
    duration, dt and their quotient are binary64 numbers the length is
    ceil(duration / dt). *)
Theorem time_sequence_shape (odeint : solver)
    (self : DoublePendulumSimulator) (y0 : list R) (duration dt : R) :
  OdeintContract odeint ->
  self.(L1) <> 0 -> length y0 = 4%nat -> 0 < duration -> 0 < dt ->
  exists traj,
    simulate odeint self y0 duration dt = Ok traj /\
    let q := round53 (round53 (round53 duration - round53 0) / round53 dt) in
    let n := Z.to_nat (Zceil q) in
    length (tr_time traj) = n /\
    tr_time traj !! 0%nat = Some 0 /\
    (forall i : nat, (i < n)%nat -> tr_time traj !! i = Some (INR i * dt)) /\
    (forall (i j : nat) (ti tj : R),
       (i < j)%nat -> tr_time traj !! i = Some ti ->
       tr_time traj !! j = Some tj -> ti < tj) /\
    length (tr_theta1 traj) = n /\ length (tr_theta2 traj) = n /\
    length (tr_x1 traj) = n /\ length (tr_y1 traj) = n /\
    length (tr_x2 traj) = n /\ length (tr_y2 traj) = n /\
    length (tr_energy traj) = n /\
    (round53 duration = duration -> round53 dt = dt ->
     round53 (duration / dt) = duration / dt ->
     n = Z.to_nat (Zceil (duration / dt))).
Proof.
  intros contract HL Hy0 HD Hdt.
  destruct (simulate_returns odeint contract self y0 duration dt HL Hy0 HD Hdt)
    as (solution & _ & Hlen & Hsim).
  eexists. split; [exact Hsim|]. cbv zeta.
  change (Z.to_nat
            (Zceil (round53 (round53 (round53 duration - round53 0)
                             / round53 dt))))
    with (arange_len 0 duration dt).
  pose proof (trajectory_lengths self _ _ dt Hlen) as Hl. cbv zeta in Hl.
  rewrite time_grid_length in Hl.
  destruct Hl as (H1 & H2 & H3 & H4 & H5 & H6 & H7).
  change (tr_time (trajectory_of self (time_grid duration dt) solution dt))
    with (time_grid duration dt).
  split; [apply time_grid_length|].
  split.
  { rewrite time_grid_lookup by now apply samples_positive.
    f_equal. cbn. ring. }
  split; [intros i Hi; now apply time_grid_lookup|].
  split.
  { intros i j ti tj Hij Hi Hj.
    apply time_grid_lookup_inv in Hi, Hj. subst ti tj.
    apply lt_INR in Hij. nra. }
  repeat (split; [assumption|]).
  apply arange_len_exact.
Qed.

(** C3, amended.  The driver validates nothing and raises no
    [InvalidParameter]: a zero step raises [ZeroDivisionError] while the
    time sequence is built, before the solver is called; with [L1 = 0]
    the derivative function raises [ZeroDivisionError] on every state; and
    with [L1 <> 0], a positive duration and a positive step a trajectory is
    returned whatever the signs of the masses and of [L2]. *)
Theorem simulate_unvalidated (odeint : solver) :
  OdeintContract odeint ->
  (forall (self : DoublePendulumSimulator) (y0 : list R) (duration : R),
     simulate odeint self y0 duration 0 = Raise ZeroDivisionError) /\
  (forall (self : DoublePendulumSimulator) (theta1 omega1 theta2 omega2 t : R),
     self.(L1) = 0 ->
     derivatives self [theta1; omega1; theta2; omega2] t
       = Raise ZeroDivisionError) /\
  (forall (self : DoublePendulumSimulator) (y0 : list R) (duration dt : R),
     self.(L1) <> 0 -> length y0 = 4%nat -> 0 < duration -> 0 < dt ->
     exists traj, simulate odeint self y0 duration dt = Ok traj).
Proof.
  intros contract. split; [|split].
  - intros self y0 duration. apply simulate_zero_step.
  - intros self theta1 omega1 theta2 omega2 t HL.
    now apply derivatives_L1_zero.
  - intros self y0 duration dt HL Hy0 HD Hdt.
    destruct (simulate_returns odeint contract self y0 duration dt
                HL Hy0 HD Hdt) as (solution & _ & _ & Hsim).
    eauto.
Qed.

(** C6.  With positive parameters the derivative function vanishes at
    [0, 0, 0, 0], and the run from that state has theta1 = theta2 = 0 at
    every sample. *)
Theorem rest_is_equilibrium (odeint : solver)
    (self : DoublePendulumSimulator) (duration dt t : R) :
  OdeintContract odeint ->
  0 < self.(m1) -> 0 < self.(m2) -> 0 < self.(L1) -> 0 < self.(L2) ->
  0 < self.(g) ->
  derivatives self [0; 0; 0; 0] t = Ok [0; 0; 0; 0] /\
  (0 < duration -> 0 < dt ->
   exists traj,
     simulate odeint self [0; 0; 0; 0] duration dt = Ok traj /\
     (0 < length (tr_time traj))%nat /\
     tr_theta1 traj = repeat 0 (length (tr_time traj)) /\
     tr_theta2 traj = repeat 0 (length (tr_time traj))).
Proof.
  intros contract Hm1 Hm2 HL1 HL2 Hg.
  assert (HL : self.(L1) <> 0) by lra.
  split; [now apply derivatives_rest|].
  intros HD Hdt. eexists.
  split; [now apply simulate_rest|].
  cbn [tr_time tr_theta1 tr_theta2 trajectory_of].
  rewrite !column_repeat. cbn [nth].
  split; [|split; reflexivity].
  rewrite time_grid_length. now apply samples_positive.
Qed.

(** C7.  With m1 = m2 and L1 = L2, negating the state negates the
    derivative componentwise, and the runs from [theta, 0, theta, 0] and
    from [-theta, 0, -theta, 0] are sign-mirrors at every sample: same
    times, opposite theta1, theta2, x1 and x2. *)
Theorem mirror_symmetry (odeint : solver)
    (self : DoublePendulumSimulator) (theta duration dt : R) :
  OdeintContract odeint ->
  self.(m1) = self.(m2) -> self.(L1) = self.(L2) -> self.(L1) <> 0 ->
  0 < duration -> 0 < dt ->
  (forall (y : list R) (t : R),
     derivatives self (vneg y) t = vneg <$> derivatives self y t) /\
  exists traj traj',
    simulate odeint self [theta; 0; theta; 0] duration dt = Ok traj /\
    simulate odeint self [- theta; 0; - theta; 0] duration dt = Ok traj' /\
    tr_time traj' = tr_time traj /\
    tr_theta1 traj' = vneg (tr_theta1 traj) /\
    tr_theta2 traj' = vneg (tr_theta2 traj) /\
    tr_x1 traj' = vneg (tr_x1 traj) /\
    tr_x2 traj' = vneg (tr_x2 traj).
Proof.
  intros contract _ _ HL HD Hdt.
  split; [apply derivatives_mirror|].
  destruct (simulate_returns odeint contract self [theta; 0; theta; 0]
              duration dt HL eq_refl HD Hdt) as (solution & Hsol & _ & Hsim).
  exists (trajectory_of self (time_grid duration dt) solution dt),
         (trajectory_of self (time_grid duration dt) (map vneg solution) dt).
  split; [exact Hsim|]. split.
  { rewrite simulate_steps by lra.
    rewrite mirror_initial_state.
    rewrite (odeint_derivatives_mirror odeint contract) by (auto; lra).
    rewrite Hsol. reflexivity. }
  cbn [tr_time tr_theta1 tr_theta2 tr_x1 tr_x2 trajectory_of].
  rewrite !column_mirror, !scaled_sin_mirror, vzip_plus_mirror.
  repeat split; reflexivity.
Qed.

(** ** The endpoints *)

Lemma degrees_radians (x : R) : degrees (radians x) = x.
Proof. unfold degrees, radians. field. apply PI_neq0. Qed.

Lemma degrees_zero : degrees 0 = 0.
Proof. unfold degrees. ring. Qed.

Lemma degrees_opp (x : R) : degrees (- x) = - degrees x.
Proof. unfold degrees. ring. Qed.

Section EndpointFacts.

Variable odeint : solver.
Variable float_of_string : string -> option R.

Lemma get_float_missing (data : gmap string json) (key : string) (dflt : R) :
  data !! key = None -> Route.get_float float_of_string data key dflt = Ok dflt.
Proof. intros H. unfold Route.get_float. rewrite H. reflexivity. Qed.

Lemma get_float_insert_ne (data : gmap string json) (k key : string)
    (v : json) (dflt : R) :
  k <> key ->
  Route.get_float float_of_string (<[k := v]> data) key dflt =
  Route.get_float float_of_string data key dflt.
Proof.
  intros Hne. unfold Route.get_float. now rewrite lookup_insert_ne.
Qed.

(** The request body of [/api/simulate] is read at ten keys, and ["g"] is
    not one of them. *)
Lemma simulate_body_ignores_g (data : gmap string json) (v : json) :
  Route.simulate_body odeint float_of_string (<["g" := v]> data) =
  Route.simulate_body odeint float_of_string data.
Proof.
  unfold Route.simulate_body.
  rewrite !get_float_insert_ne by discriminate. reflexivity.
Qed.

(** A successful request ran the driver on a simulator built without [g]. *)
Lemma simulate_body_inv (data : gmap string json) (traj : Trajectory) :
  Route.simulate_body odeint float_of_string data = Ok traj ->
  exists m1 m2 L1 L2 theta1 omega1 theta2 omega2 duration dt,
    simulate odeint (init (Some m1) (Some m2) (Some L1) (Some L2) None)
      [theta1; omega1; theta2; omega2] duration dt = Ok traj.
Proof.
  unfold Route.simulate_body. intros H.
  apply bind_Ok_inv in H as (theta1 & _ & H).
  apply bind_Ok_inv in H as (theta2 & _ & H).
  apply bind_Ok_inv in H as (omega1 & _ & H).
  apply bind_Ok_inv in H as (omega2 & _ & H).
  apply bind_Ok_inv in H as (m1 & _ & H).
  apply bind_Ok_inv in H as (m2 & _ & H).
  apply bind_Ok_inv in H as (L1 & _ & H).
  apply bind_Ok_inv in H as (L2 & _ & H).
  apply bind_Ok_inv in H as (duration & _ & H).
  apply bind_Ok_inv in H as (dt & _ & H).
  exists m1, m2, L1, L2, theta1, omega1, theta2, omega2, duration, dt.
  exact H.
Qed.

End EndpointFacts.

(** C10.  Whatever the request body of [/api/simulate] holds, a ["g"] field
    included, the simulation runs with g = 9.81: the handler does not read
    ["g"], and the simulator it builds takes the default of the
    constructor. *)
Theorem simulate_endpoint_gravity (odeint : solver)
    (float_of_string : string -> option R) (data : gmap string json) :
  (forall v : json,
     Route.simulate odeint float_of_string (<["g" := v]> data) =
     Route.simulate odeint float_of_string data) /\
  (forall traj : Trajectory,
     Route.simulate odeint float_of_string data = Success traj ->
     exists (simulator : DoublePendulumSimulator)
            (initial_state : list R) (duration dt : R),
       simulator.(g) = 9.81 /\
       simulate odeint simulator initial_state duration dt = Ok traj).
Proof.
  split.
  - intros v. unfold Route.simulate. now rewrite simulate_body_ignores_g.
  - intros traj H. unfold Route.simulate in H.
    destruct (Route.simulate_body odeint float_of_string data) as [r|e] eqn:Hb;
      [|discriminate].
    injection H as ->.
    apply simulate_body_inv in Hb
      as (m1 & m2 & L1 & L2 & th1 & w1 & th2 & w2 & duration & dt & Hb).
    exists (init (Some m1) (Some m2) (Some L1) (Some L2) None),
           [th1; w1; th2; w2], duration, dt.
    split; [reflexivity | exact Hb].
Qed.

(** C8.  When the request parses and the three runs succeed,
    [/api/compare] returns exactly three simulations: the runs from
    theta1, theta1 + perturbation and theta1 - perturbation (read in
    degrees, default 0.01, converted to radians), tagged 0, 1, 2 and with
    the offset converted back to degrees, that is 0, +perturbation and
    -perturbation. *)
Theorem compare_three_runs (odeint : solver)
    (float_of_string : string -> option R) (data : gmap string json)
    (theta1 theta2 perturbation m1 m2 L1 L2 duration dt : R)
    (run0 run1 run2 : Trajectory) :
  Route.get_float float_of_string data "theta1" 90 = Ok theta1 ->
  Route.get_float float_of_string data "theta2" 90 = Ok theta2 ->
  Route.get_float float_of_string data "perturbation" 0.01 = Ok perturbation ->
  Route.get_float float_of_string data "m1" 1.0 = Ok m1 ->
  Route.get_float float_of_string data "m2" 1.0 = Ok m2 ->
  Route.get_float float_of_string data "L1" 1.0 = Ok L1 ->
  Route.get_float float_of_string data "L2" 1.0 = Ok L2 ->
  Route.get_float float_of_string data "duration" 10 = Ok duration ->
  Route.get_float float_of_string data "dt" 0.01 = Ok dt ->
  let simulator := init (Some m1) (Some m2) (Some L1) (Some L2) None in
  simulate odeint simulator
    [radians theta1 + 0; 0; radians theta2; 0] duration dt = Ok run0 ->
  simulate odeint simulator
    [radians theta1 + radians perturbation; 0; radians theta2; 0] duration dt
    = Ok run1 ->
  simulate odeint simulator
    [radians theta1 + - radians perturbation; 0; radians theta2; 0] duration dt
    = Ok run2 ->
  Route.compare_simulations odeint float_of_string data =
    Success [ {| sim_id := 0; sim_delta := degrees 0; sim_data := run0 |};
              {| sim_id := 1; sim_delta := degrees (radians perturbation);
                 sim_data := run1 |};
              {| sim_id := 2; sim_delta := degrees (- radians perturbation);
                 sim_data := run2 |} ] /\
  degrees 0 = 0 /\
  degrees (radians perturbation) = perturbation /\
  degrees (- radians perturbation) = - perturbation /\
  (data !! "perturbation" = None -> perturbation = 0.01).
Proof.
  intros Hth1 Hth2 Hp Hm1 Hm2 HL1 HL2 HD Hdt simulator H0 H1 H2.
  split; [|split; [|split; [|split]]].
  - unfold Route.compare_simulations, Route.compare_simulations_body.
    rewrite Hth1, Hth2, Hp, Hm1, Hm2, HL1, HL2, HD, Hdt.
    cbn [fmap result_fmap mbind result_bind].
    change (enumerate [0; radians perturbation; - radians perturbation])
      with [(0%nat, 0); (1%nat, radians perturbation);
            (2%nat, - radians perturbation)].
    cbn [mapM]. fold simulator.
    rewrite H0. cbn [mbind result_bind]. rewrite H1. cbn [mbind result_bind].
    rewrite H2. reflexivity.
  - apply degrees_zero.
  - apply degrees_radians.
  - rewrite degrees_opp, degrees_radians. reflexivity.
  - intros Hnone.
    rewrite (get_float_missing float_of_string) in Hp by assumption.
    congruence.
Qed.

(** ** The claims at concrete inputs *)

Lemma default_simulator_L1 : default_simulator.(L1) <> 0.
Proof. cbn. lra. Qed.

Lemma negative_rod_simulator_L1 : negative_rod_simulator.(L1) <> 0.
Proof. cbn. lra. Qed.

Lemma derivatives_equations_witness :
  derivatives default_simulator [0; 1; 0; 2] 0 =
    Ok [1;
        Spec.alpha1 default_simulator.(m1) default_simulator.(m2)
          default_simulator.(L1) default_simulator.(L2) default_simulator.(g)
          0 1 0 2;
        2;
        Spec.alpha2 default_simulator.(m1) default_simulator.(m2)
          default_simulator.(L1) default_simulator.(L2) default_simulator.(g)
          0 1 0 2].
Proof.
  apply (derivatives_equations default_simulator 0 1 0 2 0);
    unfold Spec.den2, Spec.den1, default_simulator, init;
    cbn [m1 m2 L1 L2 g default]; try lra.
  - rewrite Rminus_diag, cos_0. rewrite Rabs_pos_eq; lra.
  - rewrite Rminus_diag, cos_0. rewrite Rabs_pos_eq; lra.
Defined.

Lemma derivatives_denominators_clamped_witness :
  clamp_den 0 = 1e-10 /\ 1e-10 <= Rabs (clamp_den 0).
Proof.
  destruct derivatives_denominators_clamped as [Hclamp _].
  destruct (Hclamp 0) as (_ & _ & Hzero & Hbound).
  split; [apply Hzero; reflexivity | exact Hbound].
Defined.

Lemma simulate_unvalidated_witness :
  (forall (self : DoublePendulumSimulator) (y0 : list R) (duration : R),
     simulate euler_odeint self y0 duration 0 = Raise ZeroDivisionError) /\
  (forall (self : DoublePendulumSimulator) (theta1 omega1 theta2 omega2 t : R),
     self.(L1) = 0 ->
     derivatives self [theta1; omega1; theta2; omega2] t
       = Raise ZeroDivisionError) /\
  (forall (self : DoublePendulumSimulator) (y0 : list R) (duration dt : R),
     self.(L1) <> 0 -> length y0 = 4%nat -> 0 < duration -> 0 < dt ->
     exists traj, simulate euler_odeint self y0 duration dt = Ok traj).
Proof. exact (simulate_unvalidated euler_odeint euler_contract). Defined.

(** A zero step raises [ZeroDivisionError], not [InvalidParameter], and a
    rod of negative length is not rejected at all. *)
Lemma invalid_parameter_counterexample :
  simulate euler_odeint default_simulator horizontal_state 10 0
    = Raise ZeroDivisionError /\
  negative_rod_simulator.(L2) <= 0 /\
  exists traj,
    simulate euler_odeint negative_rod_simulator horizontal_state 10 0.01 = Ok traj.
Proof.
  split; [apply simulate_zero_step|].
  split; [cbn; lra|].
  destruct (simulate_returns euler_odeint euler_contract negative_rod_simulator
              horizontal_state 10 0.01 negative_rod_simulator_L1 eq_refl)
    as (solution & _ & _ & Hsim); [lra | lra | eauto].
Qed.

Lemma time_sequence_shape_witness :
  exists traj,
    simulate euler_odeint default_simulator horizontal_state 2 0.01 = Ok traj /\
    let q := round53 (round53 (round53 2 - round53 0) / round53 0.01) in
    let n := Z.to_nat (Zceil q) in
    length (tr_time traj) = n /\
    tr_time traj !! 0%nat = Some 0 /\
    (forall i : nat, (i < n)%nat -> tr_time traj !! i = Some (INR i * 0.01)) /\
    (forall (i j : nat) (ti tj : R),
       (i < j)%nat -> tr_time traj !! i = Some ti ->
       tr_time traj !! j = Some tj -> ti < tj) /\
    length (tr_theta1 traj) = n /\ length (tr_theta2 traj) = n /\
    length (tr_x1 traj) = n /\ length (tr_y1 traj) = n /\
    length (tr_x2 traj) = n /\ length (tr_y2 traj) = n /\
    length (tr_energy traj) = n /\
    (round53 2 = 2 -> round53 0.01 = 0.01 ->
     round53 (2 / 0.01) = 2 / 0.01 ->
     n = Z.to_nat (Zceil (2 / 0.01))).
Proof.
  apply (time_sequence_shape euler_odeint default_simulator horizontal_state
           2 0.01 euler_contract default_simulator_L1 eq_refl); lra.
Defined.

(** The sample counts of two runs whose quotient binary64 computes
    exactly: one sample for a duration and a step of 1, two for a duration
    of 1.5 and a step of 1. *)
Lemma arange_len_1_1 : arange_len 0 1 1 = 1%nat.
Proof.
  rewrite arange_len_exact; rewrite ?Rdiv_1_r; try apply round53_1.
  replace (Zceil 1) with 1%Z; [reflexivity|].
  symmetry. apply Zceil_eq. lra.
Qed.

Lemma arange_len_3_2 : arange_len 0 1.5 1 = 2%nat.
Proof.
  rewrite arange_len_exact; rewrite ?Rdiv_1_r;
    try apply round53_1; try apply round53_3_2.
  replace (Zceil 1.5) with 2%Z; [reflexivity|].
  symmetry. apply Zceil_eq. lra.
Qed.

(** For a duration of 1.5 and a step of 1 the samples are taken at 0 and
    1: two of them, where floor(1.5 / 1) is 1. *)
Lemma time_sequence_floor_counterexample :
  Spec.samples 1.5 1 = 1%nat /\
  arange 0 1.5 1 = Ok [0 + INR 0 * 1; 0 + INR 1 * 1] /\
  exists traj,
    simulate euler_odeint default_simulator horizontal_state 1.5 1 = Ok traj /\
    length (tr_time traj) = 2%nat /\
    length (tr_theta1 traj) = 2%nat.
Proof.
  assert (Hlen : length (time_grid 1.5 1) = 2%nat)
    by (rewrite time_grid_length; apply arange_len_3_2).
  split; [|split].
  - unfold Spec.samples.
    replace (Zfloor (1.5 / 1)) with 1%Z; [reflexivity|].
    symmetry. apply Zfloor_eq. lra.
  - rewrite arange_ok by lra. rewrite arange_len_3_2. reflexivity.
  - destruct (simulate_returns euler_odeint euler_contract default_simulator
                horizontal_state 1.5 1 default_simulator_L1 eq_refl)
      as (solution & _ & Hsol & Hsim); [lra | lra |].
    eexists. split; [exact Hsim|].
    cbn [tr_time tr_theta1 trajectory_of].
    rewrite column_length. split; congruence.
Qed.

Lemma calculate_energy_sample_witness :
  calculate_energy default_simulator [[0; 0; 0; 0]] !! 0%nat =
    Some (Spec.kinetic default_simulator.(m1) default_simulator.(m2)
            default_simulator.(L1) default_simulator.(L2) 0 0 0 0
          + Spec.potential default_simulator.(m1) default_simulator.(m2)
              default_simulator.(L1) default_simulator.(L2)
              default_simulator.(g) 0 0).
Proof.
  apply (calculate_energy_sample default_simulator [[0; 0; 0; 0]] 0 0 0 0 0).
  reflexivity.
Defined.

Lemma rest_is_equilibrium_witness :
  derivatives default_simulator [0; 0; 0; 0] 0 = Ok [0; 0; 0; 0] /\
  (0 < 10 -> 0 < 0.01 ->
   exists traj,
     simulate euler_odeint default_simulator [0; 0; 0; 0] 10 0.01 = Ok traj /\
     (0 < length (tr_time traj))%nat /\
     tr_theta1 traj = repeat 0 (length (tr_time traj)) /\
     tr_theta2 traj = repeat 0 (length (tr_time traj))).
Proof.
  apply (rest_is_equilibrium euler_odeint default_simulator 10 0.01 0
           euler_contract); cbn; lra.
Defined.

Lemma mirror_symmetry_witness :
  (forall (y : list R) (t : R),
     derivatives default_simulator (vneg y) t
       = vneg <$> derivatives default_simulator y t) /\
  exists traj traj',
    simulate euler_odeint default_simulator [1; 0; 1; 0] 10 0.01 = Ok traj /\
    simulate euler_odeint default_simulator [- 1; 0; - 1; 0] 10 0.01
      = Ok traj' /\
    tr_time traj' = tr_time traj /\
    tr_theta1 traj' = vneg (tr_theta1 traj) /\
    tr_theta2 traj' = vneg (tr_theta2 traj) /\
    tr_x1 traj' = vneg (tr_x1 traj) /\
    tr_x2 traj' = vneg (tr_x2 traj).
Proof.
  apply (mirror_symmetry euler_odeint default_simulator 1 10 0.01
           euler_contract eq_refl eq_refl default_simulator_L1); lra.
Defined.

Lemma simulate_endpoint_gravity_witness :
  (forall v : json,
     Route.simulate euler_odeint (fun _ => None) (<["g" := v]> ∅) =
     Route.simulate euler_odeint (fun _ => None) ∅) /\
  (forall traj : Trajectory,
     Route.simulate euler_odeint (fun _ => None) ∅ = Success traj ->
     exists (simulator : DoublePendulumSimulator)
            (initial_state : list R) (duration dt : R),
       simulator.(g) = 9.81 /\
       simulate euler_odeint simulator initial_state duration dt = Ok traj).
Proof. exact (simulate_endpoint_gravity euler_odeint (fun _ => None) ∅). Defined.

Lemma compare_three_runs_witness :
  exists run0 run1 run2 : Trajectory,
    Route.compare_simulations euler_odeint (fun _ => None) ∅ =
      Success [ {| sim_id := 0; sim_delta := degrees 0; sim_data := run0 |};
                {| sim_id := 1; sim_delta := degrees (radians 0.01);
                   sim_data := run1 |};
                {| sim_id := 2; sim_delta := degrees (- radians 0.01);
                   sim_data := run2 |} ] /\
    degrees 0 = 0 /\
    degrees (radians 0.01) = 0.01 /\
    degrees (- radians 0.01) = - (0.01) /\
    ((∅ : gmap string json) !! "perturbation" = None -> 0.01 = 0.01).
Proof.
  pose (simulator := init (Some 1.0) (Some 1.0) (Some 1.0) (Some 1.0) None).
  assert (HL : simulator.(L1) <> 0) by (cbn; lra).
  destruct (simulate_returns euler_odeint euler_contract simulator
              [radians 90 + 0; 0; radians 90; 0] 10 0.01 HL eq_refl)
    as (s0 & _ & _ & H0); [lra | lra |].
  destruct (simulate_returns euler_odeint euler_contract simulator
              [radians 90 + radians 0.01; 0; radians 90; 0] 10 0.01 HL eq_refl)
    as (s1 & _ & _ & H1); [lra | lra |].
  destruct (simulate_returns euler_odeint euler_contract simulator
              [radians 90 + - radians 0.01; 0; radians 90; 0] 10 0.01
              HL eq_refl)
    as (s2 & _ & _ & H2); [lra | lra |].
  assert (Hget : forall (key : string) (dflt : R),
             Route.get_float (fun _ => None) ∅ key dflt = Ok dflt).
  { intros key dflt. apply get_float_missing. apply lookup_empty. }
  do 3 eexists.
  exact (compare_three_runs euler_odeint (fun _ => None) ∅
           90 90 0.01 1.0 1.0 1.0 1.0 10 0.01 _ _ _
           (Hget _ _) (Hget _ _) (Hget _ _) (Hget _ _) (Hget _ _)
           (Hget _ _) (Hget _ _) (Hget _ _) (Hget _ _) H0 H1 H2).
Defined.

(** * Further properties of the code *)

(** ** The derivative function: limits and periods *)

Lemma cos_sqr_le_1 (x : R) : cos x ^ 2 <= 1.
Proof. pose proof (COS_bound x). nra. Qed.

Lemma raw_den1_lower (self : DoublePendulumSimulator) (delta : R) :
  0 <= self.(m2) * self.(L1) ->
  self.(m1) * self.(L1) <= raw_den1 self delta.
Proof.
  intros Hm. unfold raw_den1. pose proof (cos_sqr_le_1 delta). nra.
Qed.

Lemma raw_den2_lower (self : DoublePendulumSimulator) (delta : R) :
  self.(L1) <> 0 -> 0 <= self.(m2) * self.(L2) ->
  self.(m1) * self.(L2) <= self.(L2) / self.(L1) * raw_den1 self delta.
Proof.
  intros HL Hm. unfold raw_den1.
  replace (self.(L2) / self.(L1)
           * ((self.(m1) + self.(m2)) * self.(L1)
              - self.(m2) * self.(L1) * cos delta ^ 2))
    with (self.(m1) * self.(L2)
          + self.(m2) * self.(L2) * (1 - cos delta ^ 2)) by (field; assumption).
  pose proof (cos_sqr_le_1 delta). nra.
Qed.

Lemma numerators_spec (self : DoublePendulumSimulator)
    (theta1 omega1 theta2 omega2 : R) :
  numerator1 self theta1 omega1 theta2 omega2
    / Spec.den1 self.(m1) self.(m2) self.(L1) (theta2 - theta1)
  = Spec.alpha1 self.(m1) self.(m2) self.(L1) self.(L2) self.(g)
      theta1 omega1 theta2 omega2 /\
  numerator2 self theta1 omega1 theta2 omega2
    / Spec.den2 self.(m1) self.(m2) self.(L1) self.(L2) (theta2 - theta1)
  = Spec.alpha2 self.(m1) self.(m2) self.(L1) self.(L2) self.(g)
      theta1 omega1 theta2 omega2.
Proof.
  unfold Spec.alpha1, Spec.alpha2, numerator1, numerator2; cbv zeta.
  split; unfold Rdiv; f_equal; ring.
Qed.

(** With positive parameters and [m1 * L1], [m1 * L2] above the threshold
    the guard never fires: on every state the derivative function returns
    the accelerations of section 4.1, without a condition on the
    denominators. *)
Theorem derivatives_guard_inactive (self : DoublePendulumSimulator)
    (theta1 omega1 theta2 omega2 t : R) :
  0 < self.(m1) -> 0 < self.(m2) -> 0 < self.(L1) -> 0 < self.(L2) ->
  self.(m1) * self.(L1) > 1e-10 -> self.(m1) * self.(L2) > 1e-10 ->
  derivatives self [theta1; omega1; theta2; omega2] t =
    Ok [omega1;
        Spec.alpha1 self.(m1) self.(m2) self.(L1) self.(L2) self.(g)
          theta1 omega1 theta2 omega2;
        omega2;
        Spec.alpha2 self.(m1) self.(m2) self.(L1) self.(L2) self.(g)
          theta1 omega1 theta2 omega2].
Proof.
  intros Hm1 Hm2 HL1 HL2 H1 H2.
  assert (HL : self.(L1) <> 0) by lra.
  pose proof (raw_den1_lower self (theta2 - theta1)) as Hd1.
  pose proof (raw_den2_lower self (theta2 - theta1) HL) as Hd2.
  rewrite derivatives_ok by assumption.
  rewrite !clamp_den_large.
  - destruct (numerators_spec self theta1 omega1 theta2 omega2) as [E1 E2].
    rewrite <- E1, <- E2. reflexivity.
  - unfold epsilon. rewrite Rabs_pos_eq; nra.
  - unfold epsilon. rewrite Rabs_pos_eq; nra.
Qed.

Lemma derivatives_guard_inactive_witness :
  derivatives default_simulator [0; 1; 2; 3] 0 =
    Ok [1;
        Spec.alpha1 default_simulator.(m1) default_simulator.(m2)
          default_simulator.(L1) default_simulator.(L2) default_simulator.(g)
          0 1 2 3;
        3;
        Spec.alpha2 default_simulator.(m1) default_simulator.(m2)
          default_simulator.(L1) default_simulator.(L2) default_simulator.(g)
          0 1 2 3].
Proof.
  apply (derivatives_guard_inactive default_simulator 0 1 2 3 0);
    unfold default_simulator, init; cbn [m1 m2 L1 L2 g default]; lra.
Defined.

(** Without a second mass the first bob is a simple pendulum:
    its acceleration is [-(g / L1) * sin theta1], whatever the second
    rod does. *)
Theorem derivatives_simple_pendulum (self : DoublePendulumSimulator)
    (theta1 omega1 theta2 omega2 t : R) :
  self.(m2) = 0 -> self.(L1) <> 0 -> Rabs (self.(m1) * self.(L1)) > 1e-10 ->
  exists alpha2 : R,
    derivatives self [theta1; omega1; theta2; omega2] t =
      Ok [omega1; - (self.(g) / self.(L1)) * sin theta1; omega2; alpha2].
Proof.
  intros Hm2 HL Hbig.
  assert (Hm1 : self.(m1) <> 0).
  { intros Hz. rewrite Hz, Rmult_0_l, Rabs_R0 in Hbig. lra. }
  assert (Hden : raw_den1 self (theta2 - theta1) = self.(m1) * self.(L1)).
  { unfold raw_den1. rewrite Hm2. ring. }
  rewrite derivatives_ok by assumption.
  rewrite Hden, clamp_den_large by exact Hbig.
  replace (numerator1 self theta1 omega1 theta2 omega2
           / (self.(m1) * self.(L1)))
    with (- (self.(g) / self.(L1)) * sin theta1).
  - eauto.
  - unfold numerator1; cbv zeta. rewrite Hm2. field. split; assumption.
Qed.

Lemma derivatives_simple_pendulum_witness :
  exists alpha2 : R,
    derivatives (init None (Some 0) None None None) [1; 0; 2; 0] 0 =
      Ok [0;
          - ((init None (Some 0) None None None).(g)
             / (init None (Some 0) None None None).(L1)) * sin 1;
          0; alpha2].
Proof.
  apply (derivatives_simple_pendulum (init None (Some 0) None None None)
           1 0 2 0 0); cbn [m1 m2 L1 L2 g default init]; try lra.
  - reflexivity.
  - rewrite Rabs_pos_eq; lra.
Defined.

(** The derivative function only sees the angles through their sines and
    cosines: a full turn of either rod changes nothing. *)
Theorem derivatives_full_turn (self : DoublePendulumSimulator)
    (theta1 omega1 theta2 omega2 t : R) :
  derivatives self [theta1 + 2 * PI; omega1; theta2; omega2] t =
    derivatives self [theta1; omega1; theta2; omega2] t /\
  derivatives self [theta1; omega1; theta2 + 2 * PI; omega2] t =
    derivatives self [theta1; omega1; theta2; omega2] t.
Proof.
  assert (Hs : forall x, sin (x + 2 * PI) = sin x).
  { intros x. rewrite sin_plus, sin_2PI, cos_2PI. ring. }
  assert (Hc : forall x, cos (x + 2 * PI) = cos x).
  { intros x. rewrite cos_plus, sin_2PI, cos_2PI. ring. }
  assert (Hs' : forall x, sin (x - 2 * PI) = sin x).
  { intros x. rewrite <- (Hs (x - 2 * PI)). f_equal. ring. }
  assert (Hc' : forall x, cos (x - 2 * PI) = cos x).
  { intros x. rewrite <- (Hc (x - 2 * PI)). f_equal. ring. }
  unfold derivatives. split.
  - replace (theta2 - (theta1 + 2 * PI)) with (theta2 - theta1 - 2 * PI)
      by ring.
    rewrite !Hs, !Hs', !Hc'. reflexivity.
  - replace (theta2 + 2 * PI - theta1) with (theta2 - theta1 + 2 * PI)
      by ring.
    rewrite !Hs, !Hc. reflexivity.
Qed.

(** ** The guard as a function of the denominator *)

Lemma clamp_den_cases (den : R) :
  (den < - epsilon /\ clamp_den den = den) \/
  (- epsilon <= den < 0 /\ clamp_den den = - epsilon) \/
  (0 <= den <= epsilon /\ clamp_den den = epsilon) \/
  (epsilon < den /\ clamp_den den = den).
Proof.
  pose proof epsilon_pos as He.
  unfold clamp_den.
  destruct (decide (Rabs den > epsilon)) as [Hbig|Hsmall].
  - unfold Rabs in Hbig. destruct (Rcase_abs den); [left | do 3 right]; lra.
  - assert (Hle : - epsilon <= den <= epsilon).
    { unfold Rabs in Hsmall. destruct (Rcase_abs den); lra. }
    destruct (decide (den <> 0)) as [Hne|Hz].
    + destruct (Rtotal_order den 0) as [Hn|[Hz|Hp]]; [|tauto|].
      * right; left. rewrite np_sign_neg by assumption. split; [lra | ring].
      * right; right; left. rewrite np_sign_pos by assumption.
        split; [lra | ring].
    + right; right; left. split; [|reflexivity].
      destruct (Req_dec den 0); [lra | tauto].
Qed.

(** The guard moves a denominator by at most 1e-10 and keeps its sign:
    a negative denominator stays negative, and any other becomes
    positive. *)
Theorem clamp_den_perturbation (den : R) :
  Rabs (clamp_den den - den) <= 1e-10 /\
  (den < 0 -> clamp_den den < 0) /\
  (0 <= den -> 0 < clamp_den den).
Proof.
  pose proof epsilon_pos as He. fold epsilon.
  destruct (clamp_den_cases den) as [[H E]|[[H E]|[[H E]|[H E]]]];
    rewrite E; (split; [|split]); intros; try lra;
    unfold Rabs; destruct (Rcase_abs _); lra.
Qed.

(** The guard is the identity on its own results, and it never reverses
    the order of two denominators. *)
Theorem clamp_den_idempotent_monotone :
  (forall den : R, clamp_den (clamp_den den) = clamp_den den) /\
  (forall x y : R, x <= y -> clamp_den x <= clamp_den y).
Proof.
  pose proof epsilon_pos as He. split.
  - intros den.
    destruct (clamp_den_cases den) as [[H E]|[[H E]|[[H E]|[H E]]]];
      rewrite E;
      destruct (clamp_den_cases (clamp_den den))
        as [[H' E']|[[H' E']|[[H' E']|[H' E']]]];
      rewrite E in H', E'; lra.
  - intros x y Hxy.
    destruct (clamp_den_cases x) as [[Hx Ex]|[[Hx Ex]|[[Hx Ex]|[Hx Ex]]]];
      destruct (clamp_den_cases y) as [[Hy Ey]|[[Hy Ey]|[[Hy Ey]|[Hy Ey]]]];
      rewrite Ex, Ey; lra.
Qed.

(** ** The energy diagnostic: a lower bound and the mirror *)

Lemma kinetic_nonneg (m1 m2 L1 L2 theta1 omega1 theta2 omega2 : R) :
  0 <= m1 -> 0 <= m2 ->
  0 <= Spec.kinetic m1 m2 L1 L2 theta1 omega1 theta2 omega2.
Proof.
  intros Hm1 Hm2. unfold Spec.kinetic.
  set (a := L1 * omega1). set (b := L2 * omega2).
  set (c := cos (theta1 - theta2)).
  assert (Hc : c ^ 2 <= 1) by apply cos_sqr_le_1.
  assert (Hv2 : 0 <= a ^ 2 + b ^ 2 + 2 * L1 * L2 * omega1 * omega2 * c).
  { replace (a ^ 2 + b ^ 2 + 2 * L1 * L2 * omega1 * omega2 * c)
      with ((a + b * c) ^ 2 + b ^ 2 * (1 - c ^ 2)) by (subst a b; ring).
    pose proof (pow2_ge_0 (a + b * c)). pose proof (pow2_ge_0 b). nra. }
  pose proof (pow2_ge_0 a). nra.
Qed.

Lemma potential_lower (m1 m2 L1 L2 g theta1 theta2 : R) :
  0 <= m1 -> 0 <= m2 -> 0 <= L1 -> 0 <= L2 -> 0 <= g ->
  - (m1 + m2) * g * L1 - m2 * g * L2
    <= Spec.potential m1 m2 L1 L2 g theta1 theta2.
Proof.
  intros Hm1 Hm2 HL1 HL2 Hg. unfold Spec.potential.
  pose proof (COS_bound theta1) as [_ H1].
  pose proof (COS_bound theta2) as [_ H2].
  assert (0 <= m1 * g * L1) by (repeat apply Rmult_le_pos; assumption).
  assert (0 <= m2 * g * L1) by (repeat apply Rmult_le_pos; assumption).
  assert (0 <= m2 * g * L2) by (repeat apply Rmult_le_pos; assumption).
  nra.
Qed.

(** With non-negative parameters no sample has less energy than the
    pendulum hanging at rest, [-(m1 + m2) g L1 - m2 g L2]. *)
Theorem calculate_energy_lower_bound (self : DoublePendulumSimulator)
    (solution : list (list R)) :
  0 <= self.(m1) -> 0 <= self.(m2) -> 0 <= self.(L1) -> 0 <= self.(L2) ->
  0 <= self.(g) ->
  Forall (fun energy =>
            - (self.(m1) + self.(m2)) * self.(g) * self.(L1)
            - self.(m2) * self.(g) * self.(L2) <= energy)
         (calculate_energy self solution).
Proof.
  intros Hm1 Hm2 HL1 HL2 Hg. rewrite calculate_energy_rows.
  induction solution as [|row solution IH]; constructor; [|exact IH].
  unfold Spec.energy.
  pose proof (kinetic_nonneg self.(m1) self.(m2) self.(L1) self.(L2)
                (nth 0 row 0) (nth 1 row 0) (nth 2 row 0) (nth 3 row 0)
                Hm1 Hm2).
  pose proof (potential_lower self.(m1) self.(m2) self.(L1) self.(L2)
                self.(g) (nth 0 row 0) (nth 2 row 0) Hm1 Hm2 HL1 HL2 Hg).
  lra.
Qed.

Lemma calculate_energy_lower_bound_witness :
  Forall (fun energy =>
            - (default_simulator.(m1) + default_simulator.(m2))
              * default_simulator.(g) * default_simulator.(L1)
            - default_simulator.(m2) * default_simulator.(g)
              * default_simulator.(L2) <= energy)
         (calculate_energy default_simulator [[1; 2; 3; 4]; [0; 0; 0; 0]]).
Proof.
  apply (calculate_energy_lower_bound default_simulator
           [[1; 2; 3; 4]; [0; 0; 0; 0]]);
    unfold default_simulator, init; cbn [m1 m2 L1 L2 g default]; lra.
Defined.

Lemma nth_vneg (k : nat) (row : list R) : nth k (vneg row) 0 = - nth k row 0.
Proof.
  pose proof (column_mirror k [row]) as H. cbn in H. now injection H.
Qed.

(** The energy does not tell a solution from its mirror image. *)
Theorem calculate_energy_mirror (self : DoublePendulumSimulator)
    (solution : list (list R)) :
  calculate_energy self (map vneg solution) = calculate_energy self solution.
Proof.
  rewrite !calculate_energy_rows, map_map. apply map_ext. intros row.
  rewrite !nth_vneg.
  unfold Spec.energy, Spec.kinetic, Spec.potential.
  replace (- nth 0 row 0 - - nth 2 row 0)
    with (- (nth 0 row 0 - nth 2 row 0)) by ring.
  rewrite !cos_neg. ring.
Qed.

(** ** Invariants of a returned trajectory *)

Section TrajectoryFacts.

Variable odeint : solver.

Lemma simulate_inv (self : DoublePendulumSimulator) (y0 : list R)
    (duration dt : R) (traj : Trajectory) :
  simulate odeint self y0 duration dt = Ok traj ->
  dt <> 0 /\
  exists solution,
    odeint (derivatives self) y0 (time_grid duration dt) = Ok solution /\
    traj = trajectory_of self (time_grid duration dt) solution dt.
Proof.
  intros H. destruct (decide (dt = 0)) as [->|Hdt].
  - rewrite simulate_zero_step in H. discriminate.
  - split; [assumption|]. rewrite simulate_steps in H by assumption.
    apply bind_Ok_inv in H as (solution & Hsol & H).
    injection H as <-. eauto.
Qed.

(** In every sample of a returned trajectory the first bob is at distance
    [|L1|] from the pivot and the second at distance [|L2|] from the
    first: the conversion to Cartesian coordinates keeps the two rods
    rigid, whatever the solver returned. *)
Theorem simulate_rods_rigid (self : DoublePendulumSimulator) (y0 : list R)
    (duration dt : R) (traj : Trajectory) (i : nat) (x1 y1 x2 y2 : R) :
  simulate odeint self y0 duration dt = Ok traj ->
  tr_x1 traj !! i = Some x1 -> tr_y1 traj !! i = Some y1 ->
  tr_x2 traj !! i = Some x2 -> tr_y2 traj !! i = Some y2 ->
  x1 ^ 2 + y1 ^ 2 = self.(L1) ^ 2 /\
  (x2 - x1) ^ 2 + (y2 - y1) ^ 2 = self.(L2) ^ 2.
Proof.
  intros Hsim Hx1 Hy1 Hx2 Hy2.
  apply simulate_inv in Hsim as (_ & solution & _ & ->).
  cbn [tr_x1 tr_y1 tr_x2 tr_y2 trajectory_of] in Hx1, Hy1, Hx2, Hy2.
  unfold column in Hx1, Hy1, Hx2, Hy2.
  repeat (rewrite vmap_map in Hx1 || rewrite vzip_map in Hx1).
  repeat (rewrite vmap_map in Hy1 || rewrite vzip_map in Hy1).
  repeat (rewrite vmap_map in Hx2 || rewrite vzip_map in Hx2).
  repeat (rewrite vmap_map in Hy2 || rewrite vzip_map in Hy2).
  rewrite list_lookup_fmap in Hx1, Hy1, Hx2, Hy2.
  destruct (solution !! i) as [row|]; [|discriminate].
  cbn in Hx1, Hy1, Hx2, Hy2.
  injection Hx1 as <-. injection Hy1 as <-.
  injection Hx2 as <-. injection Hy2 as <-.
  pose proof (sin2_cos2 (nth 0 row 0)) as H0.
  pose proof (sin2_cos2 (nth 2 row 0)) as H2.
  unfold Rsqr in H0, H2. split; nra.
Qed.

End TrajectoryFacts.

(** A run of one sample: the explicit Euler method returns the initial
    state. *)
Lemma simulate_one_sample (self : DoublePendulumSimulator) (y0 : list R) :
  simulate euler_odeint self y0 1 1 =
    Ok (trajectory_of self [0 + INR 0 * 1] [y0] 1).
Proof.
  rewrite simulate_steps by lra. unfold time_grid.
  rewrite arange_len_1_1. reflexivity.
Qed.

Lemma simulate_rods_rigid_witness :
  (default_simulator.(L1) * sin 1) ^ 2
    + (- default_simulator.(L1) * cos 1) ^ 2
    = default_simulator.(L1) ^ 2 /\
  (default_simulator.(L1) * sin 1 + default_simulator.(L2) * sin 2
   - default_simulator.(L1) * sin 1) ^ 2
  + (- default_simulator.(L1) * cos 1 - default_simulator.(L2) * cos 2
     - - default_simulator.(L1) * cos 1) ^ 2
    = default_simulator.(L2) ^ 2.
Proof.
  exact (simulate_rods_rigid euler_odeint default_simulator [1; 0; 2; 0] 1 1
           _ 0 _ _ _ _ (simulate_one_sample default_simulator [1; 0; 2; 0])
           eq_refl eq_refl eq_refl eq_refl).
Defined.

(** ** The endpoints: bad fields, missing fields, ignored fields *)

Section EndpointEdges.

Variable odeint : solver.
Variable float_of_string : string -> option R.

Lemma get_float_raises (data : gmap string json) (key : string) (dflt : R)
    (e : exn) :
  Route.get_float float_of_string data key dflt = Raise e ->
  e = ValueError \/ e = TypeError \/ e = OverflowError.
Proof.
  unfold Route.get_float, Route.float.
  destruct (default (JNumber dflt) (data !! key)) as [| |n| |s| |];
    try destruct (decide _); try destruct (float_of_string s);
    intros H; inversion H; auto.
Qed.

(** A field of [/api/simulate] that [float] refuses (null, an array, an
    object, a string that is not a number, an integer too large for a
    float) makes the request fail with status 400 and a [ValueError], a
    [TypeError] or an [OverflowError]: no simulation result is returned,
    whatever the other fields hold. *)
Theorem simulate_endpoint_rejects (data : gmap string json)
    (key : string) (dflt : R) (e : exn) :
  In (key, dflt) simulate_fields ->
  Route.get_float float_of_string data key dflt = Raise e ->
  exists e' : exn,
    Route.simulate odeint float_of_string data = Failure400 e' /\
    (e' = ValueError \/ e' = TypeError \/ e' = OverflowError).
Proof.
  intros Hin Hraise. unfold Route.simulate, Route.simulate_body.
  destruct (Route.get_float float_of_string data "theta1" 90) eqn:E1;
    [|eexists; split; [reflexivity | eapply get_float_raises; eassumption]].
  destruct (Route.get_float float_of_string data "theta2" 90) eqn:E2;
    [|eexists; split; [reflexivity | eapply get_float_raises; eassumption]].
  destruct (Route.get_float float_of_string data "omega1" 0) eqn:E3;
    [|eexists; split; [reflexivity | eapply get_float_raises; eassumption]].
  destruct (Route.get_float float_of_string data "omega2" 0) eqn:E4;
    [|eexists; split; [reflexivity | eapply get_float_raises; eassumption]].
  destruct (Route.get_float float_of_string data "m1" 1.0) eqn:E5;
    [|eexists; split; [reflexivity | eapply get_float_raises; eassumption]].
  destruct (Route.get_float float_of_string data "m2" 1.0) eqn:E6;
    [|eexists; split; [reflexivity | eapply get_float_raises; eassumption]].
  destruct (Route.get_float float_of_string data "L1" 1.0) eqn:E7;
    [|eexists; split; [reflexivity | eapply get_float_raises; eassumption]].
  destruct (Route.get_float float_of_string data "L2" 1.0) eqn:E8;
    [|eexists; split; [reflexivity | eapply get_float_raises; eassumption]].
  destruct (Route.get_float float_of_string data "duration" 10) eqn:E9;
    [|eexists; split; [reflexivity | eapply get_float_raises; eassumption]].
  destruct (Route.get_float float_of_string data "dt" 0.01) eqn:E10;
    [|eexists; split; [reflexivity | eapply get_float_raises; eassumption]].
  exfalso. cbn in Hin.
  repeat (destruct Hin as [Hin|Hin]; [injection Hin as <- <-; congruence|]).
  exact Hin.
Qed.

(** A request of [/api/simulate] whose fields all parse and whose step is
    0 fails with status 400 and [ZeroDivisionError]. *)
Theorem simulate_endpoint_zero_step (data : gmap string json) :
  (forall (key : string) (dflt : R),
     In (key, dflt) simulate_fields ->
     exists x, Route.get_float float_of_string data key dflt = Ok x) ->
  Route.get_float float_of_string data "dt" 0.01 = Ok 0 ->
  Route.simulate odeint float_of_string data = Failure400 ZeroDivisionError.
Proof.
  intros Hall Hdt. unfold Route.simulate, Route.simulate_body.
  destruct (Hall "theta1"%string 90) as [? ->]; [cbn; tauto|].
  destruct (Hall "theta2"%string 90) as [? ->]; [cbn; tauto|].
  destruct (Hall "omega1"%string 0) as [? ->]; [cbn; tauto|].
  destruct (Hall "omega2"%string 0) as [? ->]; [cbn; tauto|].
  destruct (Hall "m1"%string 1.0) as [? ->]; [cbn; tauto|].
  destruct (Hall "m2"%string 1.0) as [? ->]; [cbn; tauto|].
  destruct (Hall "L1"%string 1.0) as [? ->]; [cbn; tauto|].
  destruct (Hall "L2"%string 1.0) as [? ->]; [cbn; tauto|].
  destruct (Hall "duration"%string 10) as [? ->]; [cbn; tauto|].
  rewrite Hdt. cbn [fmap result_fmap mbind result_bind].
  rewrite simulate_zero_step. reflexivity.
Qed.

(** A request of [/api/simulate] that has none of the ten fields gets the
    run of the default simulator from the horizontal position at rest,
    10 seconds at a step of 0.01; fields that the handler does not read
    make no difference. *)
Theorem simulate_endpoint_defaults (data : gmap string json) :
  (forall (key : string) (dflt : R),
     In (key, dflt) simulate_fields -> data !! key = None) ->
  Route.simulate odeint float_of_string data =
    handle (simulate odeint default_simulator horizontal_state 10 0.01).
Proof.
  intros Hnone. unfold Route.simulate, Route.simulate_body.
  rewrite !(get_float_missing float_of_string)
    by (eapply Hnone; cbn; tauto).
  reflexivity.
Qed.

(** [/api/compare] does not read ["omega1"], ["omega2"] or ["g"]: the
    three runs always start at rest and under the default gravity. *)
Theorem compare_ignores_velocities (data : gmap string json) (v : json) :
  Route.compare_simulations odeint float_of_string (<["omega1" := v]> data) =
    Route.compare_simulations odeint float_of_string data /\
  Route.compare_simulations odeint float_of_string (<["omega2" := v]> data) =
    Route.compare_simulations odeint float_of_string data /\
  Route.compare_simulations odeint float_of_string (<["g" := v]> data) =
    Route.compare_simulations odeint float_of_string data.
Proof.
  unfold Route.compare_simulations, Route.compare_simulations_body.
  repeat split;
    rewrite !(get_float_insert_ne float_of_string) by discriminate;
    reflexivity.
Qed.

(** The unperturbed run of [/api/compare] is the run of [/api/simulate]:
    for a request without ["omega1"] and ["omega2"], the first simulation
    that [/api/compare] returns carries the trajectory that
    [/api/simulate] returns for the same request. *)
Theorem compare_first_is_simulate (data : gmap string json)
    (simulations : list Simulation) :
  data !! "omega1" = None -> data !! "omega2" = None ->
  Route.compare_simulations odeint float_of_string data
    = Success simulations ->
  exists (first : Simulation) (others : list Simulation),
    simulations = first :: others /\
    first.(sim_id) = 0%nat /\
    Route.simulate odeint float_of_string data = Success first.(sim_data).
Proof.
  intros Hw1 Hw2 H. unfold Route.compare_simulations in H.
  destruct (Route.compare_simulations_body odeint float_of_string data)
    as [sims|e] eqn:Hb; [|discriminate].
  injection H as ->. unfold Route.compare_simulations_body in Hb.
  apply bind_Ok_inv in Hb as (th1 & Hth1 & Hb).
  apply bind_Ok_inv in Hb as (th2 & Hth2 & Hb).
  apply bind_Ok_inv in Hb as (p & _ & Hb).
  apply bind_Ok_inv in Hb as (m1 & Hm1 & Hb).
  apply bind_Ok_inv in Hb as (m2 & Hm2 & Hb).
  apply bind_Ok_inv in Hb as (L1 & HL1 & Hb).
  apply bind_Ok_inv in Hb as (L2 & HL2 & Hb).
  apply bind_Ok_inv in Hb as (duration & HD & Hb).
  apply bind_Ok_inv in Hb as (dt & Hdt & Hb).
  change (enumerate [0; p; - p])
    with [(0%nat, 0); (1%nat, p); (2%nat, - p)] in Hb.
  cbn [mapM] in Hb.
  apply bind_Ok_inv in Hb as (first & Hfirst & Hb).
  apply bind_Ok_inv in Hfirst as (run0 & Hrun0 & Hfirst).
  injection Hfirst as <-.
  apply bind_Ok_inv in Hb as (others & _ & Hb).
  injection Hb as <-.
  eexists _, others. split; [reflexivity|]. split; [reflexivity|].
  cbn [sim_data]. unfold Route.simulate, Route.simulate_body.
  rewrite Hth1, Hth2, Hm1, Hm2, HL1, HL2, HD, Hdt.
  rewrite !(get_float_missing float_of_string) by assumption.
  cbn [fmap result_fmap mbind result_bind].
  rewrite Rplus_0_r in Hrun0. rewrite Hrun0. reflexivity.
Qed.

End EndpointEdges.

Lemma simulate_endpoint_rejects_witness :
  exists e' : exn,
    Route.simulate euler_odeint (fun _ => None)
      (<["theta1" := JInt (10 ^ 400)]> (<["m1" := JString "heavy"]> ∅))
      = Failure400 e' /\
    (e' = ValueError \/ e' = TypeError \/ e' = OverflowError).
Proof.
  apply (simulate_endpoint_rejects euler_odeint (fun _ => None)
           (<["theta1" := JInt (10 ^ 400)]> (<["m1" := JString "heavy"]> ∅))
           "m1" 1.0 ValueError).
  - cbn. tauto.
  - unfold Route.get_float.
    rewrite lookup_insert_ne, lookup_insert_eq by discriminate. reflexivity.
Defined.

Lemma simulate_endpoint_zero_step_witness :
  Route.simulate euler_odeint (fun _ => None) (<["dt" := JNumber 0]> ∅)
    = Failure400 ZeroDivisionError.
Proof.
  apply (simulate_endpoint_zero_step euler_odeint (fun _ => None)
           (<["dt" := JNumber 0]> ∅)).
  - intros key dflt Hin. unfold Route.get_float.
    destruct (decide (key = "dt"%string)) as [->|Hne].
    + rewrite lookup_insert_eq. cbn. eauto.
    + rewrite lookup_insert_ne, lookup_empty by congruence. cbn. eauto.
  - unfold Route.get_float. rewrite lookup_insert_eq. reflexivity.
Defined.

Lemma simulate_endpoint_defaults_witness :
  Route.simulate euler_odeint (fun _ => None) (<["g" := JNumber 1.62]> ∅) =
    handle (simulate euler_odeint default_simulator horizontal_state 10 0.01).
Proof.
  apply (simulate_endpoint_defaults euler_odeint (fun _ => None)
           (<["g" := JNumber 1.62]> ∅)).
  intros key dflt Hin. cbn in Hin.
  repeat (destruct Hin as [Hin|Hin];
          [injection Hin as <- <-;
           rewrite lookup_insert_ne by discriminate; apply lookup_empty|]).
  contradiction.
Defined.

(** The empty request of [/api/compare] succeeds with the explicit Euler
    method. *)
Lemma compare_empty_request :
  exists simulations : list Simulation,
    Route.compare_simulations euler_odeint (fun _ => None) ∅
      = Success simulations.
Proof.
  pose (simulator := init (Some 1.0) (Some 1.0) (Some 1.0) (Some 1.0) None).
  assert (HL : simulator.(L1) <> 0) by (cbn; lra).
  assert (Hrun : forall y0 : list R, length y0 = 4%nat ->
            exists traj, simulate euler_odeint simulator y0 10 0.01 = Ok traj).
  { intros y0 Hy0.
    destruct (simulate_returns euler_odeint euler_contract simulator y0
                10 0.01 HL Hy0) as (solution & _ & _ & Hsim); [lra | lra |].
    eauto. }
  unfold Route.compare_simulations, Route.compare_simulations_body.
  rewrite !(get_float_missing (fun _ => None)) by apply lookup_empty.
  cbn [fmap result_fmap mbind result_bind].
  change (enumerate [0; radians 0.01; - radians 0.01])
    with [(0%nat, 0); (1%nat, radians 0.01); (2%nat, - radians 0.01)].
  cbn [mapM]. fold simulator.
  destruct (Hrun [radians 90 + 0; 0; radians 90; 0] eq_refl) as (r0 & ->).
  cbn [mbind result_bind].
  destruct (Hrun [radians 90 + radians 0.01; 0; radians 90; 0] eq_refl)
    as (r1 & ->).
  cbn [mbind result_bind].
  destruct (Hrun [radians 90 + - radians 0.01; 0; radians 90; 0] eq_refl)
    as (r2 & ->).
  cbn. eauto.
Qed.

Lemma compare_first_is_simulate_witness :
  exists (simulations : list Simulation) (first : Simulation)
         (others : list Simulation),
    Route.compare_simulations euler_odeint (fun _ => None) ∅
      = Success simulations /\
    simulations = first :: others /\
    first.(sim_id) = 0%nat /\
    Route.simulate euler_odeint (fun _ => None) ∅ = Success first.(sim_data).
Proof.
  destruct compare_empty_request as (simulations & Hcmp).
  destruct (compare_first_is_simulate euler_odeint (fun _ => None) ∅
              simulations (lookup_empty _) (lookup_empty _) Hcmp)
    as (first & others & H).
  exists simulations, first, others. split; [exact Hcmp | exact H].
Defined.

(** ** The energy along the derivative *)

Lemma dlim_value (f : R -> R) (x l l' : R) :
  derivable_pt_lim f x l -> l = l' -> derivable_pt_lim f x l'.
Proof. intros H <-. exact H. Qed.

(** Differentiation of an expression built from constants, sums,
    products, squares and cosines. *)
Ltac dlim :=
  lazymatch goal with
  | |- derivable_pt_lim (fun _ => ?c) ?x _ =>
      apply (derivable_pt_lim_const c x)
  | |- derivable_pt_lim (fun h => h) ?x _ =>
      apply (derivable_pt_lim_id x)
  | |- derivable_pt_lim (fun h => @?f h + @?g h) ?x _ =>
      eapply (derivable_pt_lim_plus f g x); dlim
  | |- derivable_pt_lim (fun h => @?f h - @?g h) ?x _ =>
      eapply (derivable_pt_lim_minus f g x); dlim
  | |- derivable_pt_lim (fun h => @?f h * @?g h) ?x _ =>
      eapply (derivable_pt_lim_mult f g x); dlim
  | |- derivable_pt_lim (fun h => - @?f h) ?x _ =>
      eapply (derivable_pt_lim_opp f x); dlim
  | |- derivable_pt_lim (fun h => cos (@?f h)) ?x _ =>
      eapply (derivable_pt_lim_comp f cos x);
      [dlim | apply derivable_pt_lim_cos]
  | |- derivable_pt_lim (fun h => (@?f h) ^ 2) ?x _ =>
      eapply (derivable_pt_lim_comp f (fun y => y ^ 2) x);
      [dlim | apply (derivable_pt_lim_pow _ 2)]
  end.

(** The derivative of the energy along a direction [(a, b, c, d)]. *)
Lemma energy_directional
    (m1 m2 L1 L2 g theta1 omega1 theta2 omega2 a b c d : R) :
  derivable_pt_lim
    (fun h => Spec.energy m1 m2 L1 L2 g (theta1 + h * a) (omega1 + h * b)
                (theta2 + h * c) (omega2 + h * d)) 0
    ((m1 + m2) * L1 ^ 2 * omega1 * b
     + m2 * L2 ^ 2 * omega2 * d
     + m2 * L1 * L2 * cos (theta1 - theta2) * (omega1 * d + omega2 * b)
     - m2 * L1 * L2 * omega1 * omega2 * sin (theta1 - theta2) * (a - c)
     + (m1 + m2) * g * L1 * sin theta1 * a
     + m2 * g * L2 * sin theta2 * c).
Proof.
  unfold Spec.energy, Spec.kinetic, Spec.potential.
  eapply dlim_value; [dlim|].
  cbv beta. rewrite !Rmult_0_l, !Rplus_0_r. cbn [INR Init.Nat.pred].
  assert (Hhalf : 0.5 = / 2) by lra. rewrite Hhalf. field.
Qed.

Lemma energy_along_rows (self : DoublePendulumSimulator)
    (theta1 omega1 theta2 omega2 a b c d h : R) :
  energy_along self [theta1; omega1; theta2; omega2] [a; b; c; d] h =
    Spec.energy self.(m1) self.(m2) self.(L1) self.(L2) self.(g)
      (theta1 + h * a) (omega1 + h * b) (theta2 + h * c) (omega2 + h * d).
Proof. unfold energy_along. rewrite calculate_energy_rows. reflexivity. Qed.

(** The energy that [calculate_energy] reports is not constant along the
    derivative that [derivatives] returns.  At a state with both rods
    aligned, [theta, omega, theta, 0], with positive parameters and the
    guard inactive, the energy of the state moved by [h] along the
    derivative has at [h = 0] the slope
    [-2 m2 (m1 + m2) g L1 omega sin(theta) / m1], which is not zero when
    [g], [omega] and [sin theta] are not. *)
Theorem energy_slope_aligned (self : DoublePendulumSimulator)
    (theta omega t : R) :
  0 < self.(m1) -> 0 < self.(m2) -> 0 < self.(L1) -> 0 < self.(L2) ->
  self.(m1) * self.(L1) > 1e-10 -> self.(m1) * self.(L2) > 1e-10 ->
  let slope :=
    - 2 * self.(m2) * (self.(m1) + self.(m2)) * self.(g) * self.(L1)
      * omega * sin theta / self.(m1) in
  (exists dy : list R,
     derivatives self [theta; omega; theta; 0] t = Ok dy /\
     derivable_pt_lim (energy_along self [theta; omega; theta; 0] dy) 0
       slope) /\
  (self.(g) <> 0 -> omega <> 0 -> sin theta <> 0 -> slope <> 0).
Proof.
  intros Hm1 Hm2 HL1 HL2 H1 H2 slope.
  assert (HL : self.(L1) <> 0) by lra.
  assert (Hden1 : raw_den1 self (theta - theta) = self.(m1) * self.(L1)).
  { unfold raw_den1. rewrite Rminus_diag, cos_0. ring. }
  assert (Hden2 : self.(L2) / self.(L1) * (self.(m1) * self.(L1))
                  = self.(m1) * self.(L2)) by (field; assumption).
  split.
  - eexists. split.
    + rewrite derivatives_ok by assumption.
      rewrite Hden1, Hden2, !clamp_den_large
        by (unfold epsilon; rewrite Rabs_pos_eq; lra).
      reflexivity.
    + eapply derivable_pt_lim_ext;
        [intros h; symmetry; apply energy_along_rows|].
      eapply dlim_value; [apply energy_directional|].
      unfold slope, numerator1, numerator2; cbv zeta.
      rewrite Rminus_diag, sin_0, cos_0. field. lra.
  - intros Hg Hw Hs. unfold slope, Rdiv.
    repeat apply Rmult_integral_contrapositive_currified;
      try assumption; try lra.
    apply Rinv_neq_0_compat. lra.
Qed.

Lemma energy_slope_aligned_witness :
  (exists dy : list R,
     derivatives default_simulator [PI / 2; 1; PI / 2; 0] 0 = Ok dy /\
     derivable_pt_lim
       (energy_along default_simulator [PI / 2; 1; PI / 2; 0] dy) 0
       (- 2 * default_simulator.(m2)
        * (default_simulator.(m1) + default_simulator.(m2))
        * default_simulator.(g) * default_simulator.(L1)
        * 1 * sin (PI / 2) / default_simulator.(m1))) /\
  (default_simulator.(g) <> 0 -> 1 <> 0 -> sin (PI / 2) <> 0 ->
   - 2 * default_simulator.(m2)
   * (default_simulator.(m1) + default_simulator.(m2))
   * default_simulator.(g) * default_simulator.(L1)
   * 1 * sin (PI / 2) / default_simulator.(m1) <> 0).
Proof.
  apply (energy_slope_aligned default_simulator (PI / 2) 1 0);
    unfold default_simulator, init; cbn [m1 m2 L1 L2 g default]; lra.
Defined.

(** For the default simulator at [pi/2, 1, pi/2, 0] the slope is
    [-4 * 9.81]. *)
Example energy_slope_default :
  - 2 * default_simulator.(m2)
  * (default_simulator.(m1) + default_simulator.(m2))
  * default_simulator.(g) * default_simulator.(L1)
  * 1 * sin (PI / 2) / default_simulator.(m1) = - 4 * 9.81.
Proof.
  rewrite sin_PI2. unfold default_simulator, init.
  cbn [m1 m2 L1 L2 g default]. lra.
Qed.

(** ** Reversed velocities and a zero perturbation *)

(** Reversing both angular velocities reverses the velocity components of
    the derivative and leaves the two accelerations as they are: the
    equations are reversible in time.  A refused state is refused either
    way. *)
Theorem derivatives_time_reversal (self : DoublePendulumSimulator)
    (theta1 omega1 theta2 omega2 t : R) :
  derivatives self [theta1; - omega1; theta2; - omega2] t =
    (fun dy => [- nth 0 dy 0; nth 1 dy 0; - nth 2 dy 0; nth 3 dy 0])
      <$> derivatives self [theta1; omega1; theta2; omega2] t.
Proof.
  destruct (decide (self.(L1) = 0)) as [HL|HL].
  - rewrite !derivatives_L1_zero by assumption. reflexivity.
  - rewrite !derivatives_ok by assumption.
    cbn [fmap result_fmap nth].
    replace (numerator1 self theta1 (- omega1) theta2 (- omega2))
      with (numerator1 self theta1 omega1 theta2 omega2)
      by (unfold numerator1; ring).
    replace (numerator2 self theta1 (- omega1) theta2 (- omega2))
      with (numerator2 self theta1 omega1 theta2 omega2)
      by (unfold numerator2; ring).
    reflexivity.
Qed.

Section ComparePerturbation.

Variable odeint : solver.
Variable float_of_string : string -> option R.

(** With a perturbation of 0 the three simulations of [/api/compare] carry
    one and the same trajectory, each with offset 0. *)
Theorem compare_zero_perturbation (data : gmap string json)
    (simulations : list Simulation) :
  Route.get_float float_of_string data "perturbation" 0.01 = Ok 0 ->
  Route.compare_simulations odeint float_of_string data
    = Success simulations ->
  exists traj : Trajectory,
    map sim_data simulations = [traj; traj; traj] /\
    map sim_delta simulations = [0; 0; 0] /\
    map sim_id simulations = [0; 1; 2]%nat.
Proof.
  intros Hp H. unfold Route.compare_simulations in H.
  destruct (Route.compare_simulations_body odeint float_of_string data)
    as [sims|e] eqn:Hb; [|discriminate].
  injection H as ->. unfold Route.compare_simulations_body in Hb.
  rewrite Hp in Hb.
  apply bind_Ok_inv in Hb as (th1 & _ & Hb).
  apply bind_Ok_inv in Hb as (th2 & _ & Hb).
  cbn [fmap result_fmap] in Hb.
  apply bind_Ok_inv in Hb as (p & Hp0 & Hb).
  assert (p = 0) as -> by (injection Hp0 as <-; unfold radians; ring).
  apply bind_Ok_inv in Hb as (m1 & _ & Hb).
  apply bind_Ok_inv in Hb as (m2 & _ & Hb).
  apply bind_Ok_inv in Hb as (L1 & _ & Hb).
  apply bind_Ok_inv in Hb as (L2 & _ & Hb).
  apply bind_Ok_inv in Hb as (duration & _ & Hb).
  apply bind_Ok_inv in Hb as (dt & _ & Hb).
  change (enumerate [0; 0; - 0]) with [(0%nat, 0); (1%nat, 0); (2%nat, - 0)]
    in Hb.
  cbn [mapM] in Hb. rewrite Ropp_0 in Hb.
  apply bind_Ok_inv in Hb as (s0 & Hs0 & Hb).
  apply bind_Ok_inv in Hs0 as (run0 & Hrun0 & Hs0). injection Hs0 as <-.
  apply bind_Ok_inv in Hb as (rest & Hrest & Hb). injection Hb as <-.
  apply bind_Ok_inv in Hrest as (s1 & Hs1 & Hrest).
  apply bind_Ok_inv in Hs1 as (run1 & Hrun1 & Hs1). injection Hs1 as <-.
  apply bind_Ok_inv in Hrest as (rest' & Hrest' & Hrest).
  injection Hrest as <-.
  apply bind_Ok_inv in Hrest' as (s2 & Hs2 & Hrest').
  apply bind_Ok_inv in Hs2 as (run2 & Hrun2 & Hs2). injection Hs2 as <-.
  injection Hrest' as <-.
  assert (run1 = run0) as -> by congruence.
  assert (run2 = run0) as -> by congruence.
  exists run0. cbn [map sim_data sim_delta sim_id].
  rewrite degrees_zero. repeat split; reflexivity.
Qed.

End ComparePerturbation.

Lemma compare_zero_perturbation_request :
  exists simulations : list Simulation,
    Route.compare_simulations euler_odeint (fun _ => None)
      (<["perturbation" := JNumber 0]> ∅) = Success simulations.
Proof.
  pose (simulator := init (Some 1.0) (Some 1.0) (Some 1.0) (Some 1.0) None).
  assert (HL : simulator.(L1) <> 0) by (cbn; lra).
  assert (Hrun : forall y0 : list R, length y0 = 4%nat ->
            exists traj, simulate euler_odeint simulator y0 10 0.01 = Ok traj).
  { intros y0 Hy0.
    destruct (simulate_returns euler_odeint euler_contract simulator y0
                10 0.01 HL Hy0) as (solution & _ & _ & Hsim); [lra | lra |].
    eauto. }
  unfold Route.compare_simulations, Route.compare_simulations_body.
  assert (Hp : Route.get_float (fun _ => None)
                 (<["perturbation" := JNumber 0]> ∅) "perturbation" 0.01
               = Ok 0).
  { unfold Route.get_float. rewrite lookup_insert_eq. reflexivity. }
  assert (Hget : forall (key : string) (dflt : R),
             key <> "perturbation"%string ->
             Route.get_float (fun _ => None)
               (<["perturbation" := JNumber 0]> ∅) key dflt = Ok dflt).
  { intros key dflt Hne. rewrite get_float_insert_ne by congruence.
    apply get_float_missing, lookup_empty. }
  rewrite Hp, !Hget by discriminate.
  cbn [fmap result_fmap mbind result_bind].
  change (enumerate [0; radians 0; - radians 0])
    with [(0%nat, 0); (1%nat, radians 0); (2%nat, - radians 0)].
  cbn [mapM]. fold simulator.
  destruct (Hrun [radians 90 + 0; 0; radians 90; 0] eq_refl) as (r0 & ->).
  cbn [mbind result_bind].
  destruct (Hrun [radians 90 + radians 0; 0; radians 90; 0] eq_refl)
    as (r1 & ->).
  cbn [mbind result_bind].
  destruct (Hrun [radians 90 + - radians 0; 0; radians 90; 0] eq_refl)
    as (r2 & ->).
  cbn. eauto.
Qed.

Lemma compare_zero_perturbation_witness :
  exists (simulations : list Simulation) (traj : Trajectory),
    Route.compare_simulations euler_odeint (fun _ => None)
      (<["perturbation" := JNumber 0]> ∅) = Success simulations /\
    map sim_data simulations = [traj; traj; traj] /\
    map sim_delta simulations = [0; 0; 0] /\
    map sim_id simulations = [0; 1; 2]%nat.
Proof.
  destruct compare_zero_perturbation_request as (simulations & Hcmp).
  destruct (compare_zero_perturbation euler_odeint (fun _ => None)
              (<["perturbation" := JNumber 0]> ∅) simulations) as (traj & H).
  - unfold Route.get_float. rewrite lookup_insert_eq. reflexivity.
  - exact Hcmp.
  - exists simulations, traj. split; [exact Hcmp | exact H].
Defined.

(** An integer of 401 digits does not convert. *)
Example float_overflow (float_of_string : string -> option R) :
  Route.float float_of_string (JInt (10 ^ 400)) = Raise OverflowError.
Proof.
  unfold Route.float.
  destruct (decide (Z.abs (10 ^ 400) < 2 ^ 1024 - 2 ^ 970)%Z) as [Hlt|_];
    [|reflexivity].
  apply Z.ltb_lt in Hlt. vm_compute in Hlt. discriminate.
Qed.

(** ** The relative energy drift from the horizontal start *)









(** ** Sample counts in binary64 *)

Lemma mag_upper (x : R) : x <> 0 -> Rabs x < powerRZ 2 (mag x).
Proof.
  intros Hx. unfold mag.
  assert (Hpos : 0 < Rabs x) by now apply Rabs_pos_lt.
  pose proof ln2_pos as H2.
  destruct (Zfloor_bound (ln (Rabs x) / ln 2)) as [_ Hhi].
  rewrite powerRZ_Rpower by lra. unfold Rpower.
  rewrite <- (exp_ln (Rabs x)) at 1 by assumption.
  apply exp_increasing. rewrite plus_IZR.
  apply (Rmult_lt_compat_r (ln 2)) in Hhi; [|lra].
  replace (ln (Rabs x) / ln 2 * ln 2) with (ln (Rabs x)) in Hhi
    by (field; lra).
  exact Hhi.
Qed.

(** [mag x] is the only integer [e] with [2 ^ (e - 1) <= |x| < 2 ^ e]. *)
Lemma mag_unique (x : R) (e : Z) :
  powerRZ 2 (e - 1) <= Rabs x < powerRZ 2 e -> mag x = e.
Proof.
  intros [Hlo Hhi].
  assert (Hx : x <> 0).
  { intros ->. rewrite Rabs_R0 in Hlo.
    pose proof (powerRZ_lt 2 (e - 1) ltac:(lra)). lra. }
  pose proof (mag_lower x Hx) as Hl. pose proof (mag_upper x Hx) as Hu.
  assert (H1 : (mag x - 1 < e)%Z) by (apply powerRZ2_lt_inv; lra).
  assert (H2 : (e - 1 < mag x)%Z) by (apply powerRZ2_lt_inv; lra).
  lia.
Qed.

Lemma Znearest_even_near (y : R) (N : Z) :
  Rabs (y - IZR N) < 1 / 2 -> Znearest_even y = N.
Proof.
  intros H. apply Rabs_def2 in H as [H1 H2].
  unfold Znearest_even.
  destruct (Zfloor_bound y) as [Hlo Hhi].
  assert (Hf : Zfloor y = N \/ Zfloor y = (N - 1)%Z).
  { assert (IZR (Zfloor y) < IZR N + 1) by lra.
    assert (IZR N - 2 < IZR (Zfloor y)) by lra.
    rewrite <- plus_IZR in H. apply lt_IZR in H.
    rewrite <- minus_IZR in H0. apply lt_IZR in H0. lia. }
  destruct Hf as [Hf|Hf]; rewrite Hf in *.
  - destruct (decide (y - IZR N < 1 / 2)); [reflexivity | lra].
  - rewrite minus_IZR in *.
    destruct (decide (y - (IZR N - 1) < 1 / 2)); [lra|].
    destruct (decide (y - (IZR N - 1) > 1 / 2)); [f_equal; lia | lra].
Qed.

(** Evaluation of [round53]: the binade of [x] and the integer nearest to
    the scaled [x] give the result. *)
Lemma round53_near (x : R) (e N : Z) :
  powerRZ 2 (e - 1) <= Rabs x < powerRZ 2 e ->
  Rabs (x * powerRZ 2 (53 - e) - IZR N) < 1 / 2 ->
  round53 x = IZR N * powerRZ 2 (e - 53).
Proof.
  intros Hmag Hnear. unfold round53.
  destruct (decide (x = 0)) as [->|_].
  - rewrite Rabs_R0 in Hmag.
    pose proof (powerRZ_lt 2 (e - 1) ltac:(lra)). lra.
  - rewrite (mag_unique x e Hmag), (Znearest_even_near _ N Hnear). reflexivity.
Qed.

Lemma powerRZ2_pos (n : nat) : powerRZ 2 (Z.of_nat n) = IZR (2 ^ Z.of_nat n).
Proof. now rewrite <- pow_powerRZ, pow_IZR. Qed.

Lemma powerRZ2_neg (n : nat) :
  powerRZ 2 (- Z.of_nat n) = / IZR (2 ^ Z.of_nat n).
Proof.
  rewrite <- powerRZ2_pos.
  pose proof (powerRZ_lt 2 (Z.of_nat n) ltac:(lra)) as Hp.
  apply (Rmult_eq_reg_r (powerRZ 2 (Z.of_nat n))); [|lra].
  rewrite <- powerRZ_add, Rinv_l by lra.
  replace (- Z.of_nat n + Z.of_nat n)%Z with 0%Z by lia. reflexivity.
Qed.

Lemma round53_0_07 : round53 0.07 = IZR 5044031582654956 * powerRZ 2 (-56).
Proof.
  apply (round53_near 0.07 (-3) 5044031582654956).
  - change (-3 - 1)%Z with (- Z.of_nat 4)%Z. change (-3)%Z with (- Z.of_nat 3)%Z.
    rewrite !powerRZ2_neg. rewrite Rabs_pos_eq by lra.
    change (2 ^ Z.of_nat 4)%Z with 16%Z. change (2 ^ Z.of_nat 3)%Z with 8%Z. lra.
  - change (53 - -3)%Z with (Z.of_nat 56). rewrite powerRZ2_pos.
    replace (2 ^ Z.of_nat 56)%Z with 72057594037927936%Z by reflexivity.
    apply Rabs_def1; lra.
Qed.

Lemma pow2_m56 : powerRZ 2 (-56) = / 72057594037927936.
Proof. change (-56)%Z with (- Z.of_nat 56)%Z. now rewrite powerRZ2_neg. Qed.
Lemma pow2_m59 : powerRZ 2 (-59) = / 576460752303423488.
Proof. change (-59)%Z with (- Z.of_nat 59)%Z. now rewrite powerRZ2_neg. Qed.
Lemma pow2_m50 : powerRZ 2 (-50) = / 1125899906842624.
Proof. change (-50)%Z with (- Z.of_nat 50)%Z. now rewrite powerRZ2_neg. Qed.

Lemma round53_0_01 : round53 0.01 = IZR 5764607523034235 * powerRZ 2 (-59).
Proof.
  apply (round53_near 0.01 (-6) 5764607523034235).
  - change (-6 - 1)%Z with (- Z.of_nat 7)%Z. change (-6)%Z with (- Z.of_nat 6)%Z.
    rewrite !powerRZ2_neg. rewrite Rabs_pos_eq by lra.
    change (2 ^ Z.of_nat 7)%Z with 128%Z. change (2 ^ Z.of_nat 6)%Z with 64%Z. lra.
  - change (53 - -6)%Z with (Z.of_nat 59). rewrite powerRZ2_pos.
    replace (2 ^ Z.of_nat 59)%Z with 576460752303423488%Z by reflexivity.
    apply Rabs_def1; lra.
Qed.

Lemma quotient_0_07_0_01 :
  round53 (IZR 5044031582654956 * powerRZ 2 (-56)
           / (IZR 5764607523034235 * powerRZ 2 (-59)))
  = IZR 7881299347898369 * powerRZ 2 (-50).
Proof.
  rewrite pow2_m56, pow2_m59.
  apply (round53_near _ 3 7881299347898369).
  - change (3 - 1)%Z with (Z.of_nat 2). change 3%Z with (Z.of_nat 3).
    rewrite !powerRZ2_pos.
    change (2 ^ Z.of_nat 2)%Z with 4%Z. change (2 ^ Z.of_nat 3)%Z with 8%Z.
    rewrite Rabs_pos_eq; lra.
  - change (53 - 3)%Z with (Z.of_nat 50). rewrite powerRZ2_pos.
    replace (2 ^ Z.of_nat 50)%Z with 1125899906842624%Z by reflexivity.
    apply Rabs_def1; lra.
Qed.

(** A duration of 0.07 at a step of 0.01 gives eight samples, not seven:
    the binary64 numbers nearest to 0.07 and 0.01 have the quotient
    7.0000000000000005..., which rounds to [7 + 2^-50]. *)
Example arange_len_0_07 : arange_len 0 0.07 0.01 = 8%nat.
Proof.
  unfold arange_len.
  rewrite round53_0, round53_0_07, round53_0_01, Rminus_0_r.
  rewrite (round53_exact 5044031582654956 (-56)) by lia.
  rewrite quotient_0_07_0_01, pow2_m50.
  replace (Zceil (7881299347898369 * / 1125899906842624)) with 8%Z;
    [reflexivity|].
  symmetry. apply Zceil_eq. lra.
Qed.

Lemma pow2_m45 : powerRZ 2 (-45) = / 35184372088832.
Proof. change (-45)%Z with (- Z.of_nat 45)%Z. now rewrite powerRZ2_neg. Qed.

Lemma round53_2 : round53 2 = 2.
Proof.
  replace 2 with (IZR 2 * powerRZ 2 0) by (cbn; lra).
  apply round53_exact. lia.
Qed.

Lemma quotient_2_0_01 :
  round53 (2 / (IZR 5764607523034235 * powerRZ 2 (-59)))
  = IZR 7036874417766400 * powerRZ 2 (-45).
Proof.
  rewrite pow2_m59.
  apply (round53_near _ 8 7036874417766400).
  - change (8 - 1)%Z with (Z.of_nat 7). change 8%Z with (Z.of_nat 8).
    rewrite !powerRZ2_pos.
    change (2 ^ Z.of_nat 7)%Z with 128%Z. change (2 ^ Z.of_nat 8)%Z with 256%Z.
    rewrite Rabs_pos_eq; lra.
  - change (53 - 8)%Z with (Z.of_nat 45). rewrite powerRZ2_pos.
    replace (2 ^ Z.of_nat 45)%Z with 35184372088832%Z by reflexivity.
    apply Rabs_def1; lra.
Qed.

(** The run of the test script, 2 seconds at a step of 0.01, has 200
    samples: the quotient 199.99999999999999... rounds to 200. *)
Example arange_len_2_0_01 : arange_len 0 2 0.01 = 200%nat.
Proof.
  unfold arange_len.
  rewrite round53_0, round53_2, round53_0_01, Rminus_0_r, round53_2.
  rewrite quotient_2_0_01, pow2_m45.
  replace (Zceil (7036874417766400 * / 35184372088832)) with 200%Z;
    [reflexivity|].
  symmetry. apply Zceil_eq. lra.
Qed.
